(** * Talowiz: PDF question answering over a remote model

    A shallow embedding of [app.py]: the text extractor, the chunker, the
    prompt builder, the answer aggregator and the command-line driver,
    followed by the properties of the specification.

    Conventions of the embedding:
    - a Python [str] is a list of Unicode code points ([N]);
    - a Python [int] is a [Z];
    - a call that may raise returns a [Result];
    - the collaborators the program does not own (the PDF library, the remote
      model, the environment, the file system) are fields of a [World];
    - every observable effect (a remote call, a print, a file write) is
      appended to a trace of [Event]s. *)

From Stdlib Require Import String Ascii DecimalString.
From Stdlib Require Import ZArith NArith Lia Bool List.
Import ListNotations.
Open Scope Z_scope.

Set Implicit Arguments.

(** ** Python strings *)

Definition char := N.
Definition str := list char.

(** A Rocq string literal read as a Python literal (all literals of the
    program are ASCII). *)
Definition lit (s : string) : str := map N_of_ascii (list_ascii_of_string s).

(** The character written [\n] in the source. *)
Definition nl : str := [10%N].

Definition char_eqb (a b : char) : bool := N.eqb a b.

Fixpoint str_eqb (a b : str) : bool :=
  match a, b with
  | [], [] => true
  | x :: a', y :: b' => char_eqb x y && str_eqb a' b'
  | _, _ => false
  end.

(** [len(s)] *)
Definition len (s : str) : Z := Z.of_nat (length s).

(** Truth value of a string: [bool(s)], false exactly on the empty string. *)
Definition truthy (s : str) : bool :=
  match s with [] => false | _ :: _ => true end.

(** [a or b] on strings. *)
Definition str_or (a b : str) : str := if truthy a then a else b.

(** [x or ""] where [x] may be [None]. *)
Definition or_empty (x : option str) : str :=
  match x with Some s => str_or s [] | None => [] end.

(** [str.isspace] on one code point: the code points CPython treats as
    whitespace. *)
Definition isspace (c : char) : bool :=
  ((9 <=? c) && (c <=? 13) || (28 <=? c) && (c <=? 32)
   || (c =? 133) || (c =? 160) || (c =? 5760)
   || (8192 <=? c) && (c <=? 8202)
   || (c =? 8232) || (c =? 8233) || (c =? 8239) || (c =? 8287)
   || (c =? 12288))%N.

Fixpoint lstrip (s : str) : str :=
  match s with
  | [] => []
  | c :: s' => if isspace c then lstrip s' else s
  end.

Definition rstrip (s : str) : str := rev (lstrip (rev s)).

(** [s.strip()] *)
Definition strip (s : str) : str := rstrip (lstrip s).

(** [sep.join(xs)] *)
Fixpoint join (sep : str) (xs : list str) : str :=
  match xs with
  | [] => []
  | [x] => x
  | x :: rest => x ++ sep ++ join sep rest
  end.

(** [str(z)] for an integer: its decimal notation. *)
Definition str_of_int (z : Z) : str := lit (NilZero.string_of_int (Z.to_int z)).

(** [s[lo:hi]]: both bounds are read from the end when negative and clamped
    to [0, len(s)]. *)
Definition slice_bound (n i : Z) : Z :=
  if i <? 0 then Z.max (i + n) 0 else Z.min i n.

Definition slice (s : str) (lo hi : Z) : str :=
  let a := slice_bound (len s) lo in
  let b := slice_bound (len s) hi in
  firstn (Z.to_nat (b - a)) (skipn (Z.to_nat a) s).

(** [enumerate(xs, start)] *)
Fixpoint enumerate (A : Type) (xs : list A) (start : Z) : list (Z * A) :=
  match xs with
  | [] => []
  | x :: rest => (start, x) :: enumerate rest (start + 1)
  end.

(** [t in s]: [t] occurs in [s] as a contiguous run. *)
Definition occurs_in (t s : str) : Prop := exists pre post, s = pre ++ t ++ post.

(** [len(xs)] for a list. *)
Definition len_list (A : Type) (xs : list A) : Z := Z.of_nat (length xs).

(** ** Exceptions and results *)

Inductive ExcKind :=
| FileNotFoundError
| ValueError
| EnvironmentError
| RuntimeError
| ModuleNotFoundError
| LibraryError.

(** An exception: its class and its message, [str(exc)]. [LibraryError]
    stands for any [Exception] raised inside a collaborator. *)
Record Exc := mkExc { exc_kind : ExcKind; exc_msg : str }.

Inductive Result (A : Type) :=
| Return (a : A)
| Raise (e : Exc).
Arguments Return {A} a.
Arguments Raise {A} e.

(** ** The chunker *)

Definition MAX_CONTEXT_CHARS : Z := 120000.

(** Number of elements of [range(lo, hi, step)], [step] not zero. *)
Definition range_length (lo hi step : Z) : Z :=
  if 0 <? step
  then (if lo <? hi then (hi - lo - 1) / step + 1 else 0)
  else (if hi <? lo then (lo - hi - 1) / (- step) + 1 else 0).

(** [range(lo, hi, step)]; a zero step raises [ValueError]. *)
Definition range (lo hi step : Z) : Result (list Z) :=
  if step =? 0
  then Raise (mkExc ValueError (lit "range() arg 3 must not be zero"))
  else Return (map (fun k => lo + Z.of_nat k * step)
                   (seq 0 (Z.to_nat (range_length lo hi step)))).

(** Number of rounds of the loop of [chunk_text]. *)
Definition chunk_count (text : str) (size : Z) : nat :=
  Z.to_nat (range_length 0 (len text) size).

(** [chunk_text(text, size)]: the chunks in the order they are yielded. *)
Definition chunk_text (text : str) (size : Z) : Result (list str) :=
  match range 0 (len text) size with
  | Raise e => Raise e
  | Return idxs => Return (map (fun i => slice text i (i + size)) idxs)
  end.

(** ** The prompt builder *)

Definition prompt_instruction : str :=
  lit "You are a careful assistant. Use ONLY the provided PDF context to answer. "
  ++ lit "If the answer is not present, explicitly say: 'I could not find that in the PDF.'"
  ++ nl ++ nl.

Definition build_prompt (context question : str) : str :=
  prompt_instruction
  ++ (lit "PDF CONTEXT:" ++ nl ++ context ++ nl ++ nl)
  ++ (lit "QUESTION: " ++ question ++ nl)
  ++ lit "ANSWER:".

(** ** The world outside the program *)

(** Observable effects, in the order they happen. [Stdout] and [Stderr] hold
    the argument of one [print] call. *)
Inductive Event :=
| Configure (api_key : str)
| GenerateContent (model_name prompt : str)
| Stdout (line : str)
| Stderr (line : str)
| WriteText (path content : str).

(** [os.environ] *)
Definition Env := list (str * str).

(** The result of [page.extract_text()]: it may raise, or give [None]. *)
Definition Page := Result (option str).

Record World := mkWorld {
  (** [Path.exists] and [Path.is_file] *)
  path_exists : str -> bool;
  path_is_file : str -> bool;
  (** [PdfReader(path).pages] once [pypdf] is imported, or the exception
      raised on the way, by the import or by the reader *)
  pdf_pages : str -> Result (list Page);
  (** [import google.generativeai]: the exception it raises, if any *)
  import_genai : option Exc;
  (** [model.generate_content(prompt).text] for the model of that name,
      after the effects so far: it may raise, or give [None] *)
  generate_content : str -> list Event -> str -> Result (option str);
  (** [Path.write_text]: the exception it raises, if any *)
  write_text : str -> str -> option Exc;
  (** [dotenv.load_dotenv], when the module can be imported *)
  load_dotenv : option (str -> Env -> Env);
  (** [print]: the exception it raises when asked for that output, if any *)
  print_raises : Event -> option Exc;
  (** [str(Path(s))]: the path as [pathlib] writes it *)
  path_str : str -> str
}.

(** [os.getenv(name)] *)
Fixpoint getenv (env : Env) (name : str) : option str :=
  match env with
  | [] => None
  | (k, v) :: rest => if str_eqb k name then Some v else getenv rest name
  end.

(** ** Computations with a trace *)

Definition M (A : Type) : Type := list Event -> Result A * list Event.

Definition ret (A : Type) (a : A) : M A := fun tr => (Return a, tr).

Definition raise (A : Type) (e : Exc) : M A := fun tr => (Raise e, tr).
Arguments raise {A} e.

Definition bind (A B : Type) (m : M A) (k : A -> M B) : M B :=
  fun tr =>
    match m tr with
    | (Return a, tr') => k a tr'
    | (Raise e, tr') => (Raise e, tr')
    end.

Definition emit (ev : Event) : M unit := fun tr => (Return tt, tr ++ [ev]).

Definition lift (A : Type) (r : Result A) : M A := fun tr => (r, tr).

(** [try: body / except Exception as exc: handler(exc)], then the rest of
    the function on the value the body bound. *)
Definition try_except (A B : Type) (body : M A) (handler : Exc -> M B)
    (rest : A -> M B) : M B :=
  fun tr =>
    match body tr with
    | (Return a, tr') => rest a tr'
    | (Raise e, tr') => handler e tr'
    end.

Declare Scope py_scope.
Delimit Scope py_scope with py.
Notation "x <- m ; k" := (bind m (fun x => k))
  (at level 100, m at next level, right associativity) : py_scope.
Notation "m ;; k" := (bind m (fun _ => k))
  (at level 100, right associativity) : py_scope.
Open Scope py_scope.

(** One [print] call: the output is recorded, unless the call raises. *)
Definition output (w : World) (ev : Event) : M unit :=
  match print_raises w ev with
  | Some e => raise e
  | None => emit ev
  end.

(** [print(line)] and [print(line, file=sys.stderr)] *)
Definition print (w : World) (line : str) : M unit := output w (Stdout line).
Definition print_err (w : World) (line : str) : M unit := output w (Stderr line).

(** ** The text extractor *)

(** [load_env_file(env_path)]: nothing when [dotenv] cannot be imported. *)
Definition load_env_file (w : World) (env : Env) (env_path : str) : Env :=
  match load_dotenv w with
  | None => env
  | Some load => load env_path env
  end.

(** The page marker and text appended for page [idx]. *)
Definition page_section (idx : Z) (text : str) : str :=
  lit "--- Page " ++ str_of_int idx ++ lit " ---" ++ nl ++ text.

(** The loop over [enumerate(reader.pages, start=1)], from the pages still to
    visit and the sections kept so far. *)
Fixpoint extract_pages (pages : list (Z * Page)) (all_text : list str)
    : Result (list str) :=
  match pages with
  | [] => Return all_text
  | (idx, page) :: rest =>
      match page with
      | Raise e => Raise e
      | Return t =>
          let text := strip (or_empty t) in
          if truthy text
          then extract_pages rest (all_text ++ [page_section idx text])
          else extract_pages rest all_text
      end
  end.

Definition extract_pdf_text (w : World) (pdf_path : str) : Result str :=
  if negb (path_exists w pdf_path) || negb (path_is_file w pdf_path)
  then Raise (mkExc FileNotFoundError (lit "PDF file not found: " ++ pdf_path))
  else
    match pdf_pages w pdf_path with
    | Raise e => Raise e
    | Return pages =>
        match extract_pages (enumerate pages 1) [] with
        | Raise e => Raise e
        | Return all_text =>
            let combined := strip (join (nl ++ nl) all_text) in
            if negb (truthy combined)
            then Raise (mkExc ValueError
                          (lit "Could not extract any text from the PDF."))
            else Return combined
        end
    end.

(** The sections the specification describes for a document whose pages
    extract to [texts]: one per page whose trimmed text is not empty, marked
    with the page number counted from 1, in page order. *)
Definition page_text (t : option str) : str := strip (or_empty t).

Definition sections_of (texts : list (option str)) : list str :=
  map (fun it => page_section (fst it) (page_text (snd it)))
      (filter (fun it => truthy (page_text (snd it))) (enumerate texts 1)).

(** A string with no white space at its start. *)
Definition headed (s : str) : Prop :=
  match s with
  | [] => True
  | c :: _ => isspace c = false
  end.

(** A non-empty string with no white space at either end. *)
Definition solid (s : str) : Prop := s <> [] /\ headed s /\ headed (rev s).

(** ** The answer aggregator *)

(** One remote call: the call is recorded, then its text is returned or its
    exception raised. *)
Definition generate (w : World) (model_name prompt : str) : M (option str) :=
  fun tr =>
    (generate_content w model_name tr prompt,
     tr ++ [GenerateContent model_name prompt]).

(** The loop over the chunks, from the chunks still to visit and the
    responses kept so far. *)
Fixpoint collect_responses (w : World) (model_name question : str)
    (chunks : list str) (responses : list str) : M (list str) :=
  match chunks with
  | [] => ret responses
  | chunk :: rest =>
      let prompt := build_prompt chunk question in
      result <- generate w model_name prompt ;
      let text := strip (or_empty result) in
      if truthy text
      then collect_responses w model_name question rest (responses ++ [text])
      else collect_responses w model_name question rest responses
  end.

Definition merge_instruction : str :=
  lit "You are given multiple partial answers extracted from different PDF chunks. "
  ++ lit "Merge them into one concise final answer. If conflicting, prefer overlap across chunks."
  ++ nl ++ nl.

(** [f"Partial answer {i+1}:\n{r}"] *)
Definition partial_section (ir : Z * str) : str :=
  let (i, r) := ir in
  lit "Partial answer " ++ str_of_int (i + 1) ++ lit ":" ++ nl ++ r.

Definition summary_prompt (responses : list str) : str :=
  merge_instruction
  ++ join (nl ++ nl) (map partial_section (enumerate responses 0)).

Definition ask_gemini (w : World) (env : Env)
    (pdf_text question model_name : str) : M str :=
  match import_genai w with
  | Some e => raise e
  | None =>
  let api_key := getenv env (lit "GEMINI_API_KEY") in
  if negb (truthy (or_empty api_key))
  then raise (mkExc EnvironmentError
                (lit "GEMINI_API_KEY is not set. Configure it in env or .env."))
  else
    emit (Configure (or_empty api_key)) ;;
    chunks <- lift (chunk_text pdf_text MAX_CONTEXT_CHARS) ;
    responses <- collect_responses w model_name question chunks [] ;
    if negb (match responses with [] => false | _ => true end)
    then raise (mkExc RuntimeError (lit "Gemini returned an empty response."))
    else if len_list responses =? 1
    then ret (nth 0 responses [])
    else
      final <- generate w model_name (summary_prompt responses) ;
      ret (str_or (strip (or_empty final)) (join (nl ++ nl) responses))
  end.

(** The remote calls the loop over the chunks makes when no call raises: one
    per chunk, in chunk order, each with the prompt built for that chunk. *)
Definition chunk_calls (model_name question : str) (chunks : list str)
    : list Event :=
  map (fun c => GenerateContent model_name (build_prompt c question)) chunks.

(** ** The command-line driver *)

(** The parsed arguments. *)
Record Args := mkArgs {
  arg_pdf : str;
  arg_question : str;
  arg_model : str;
  arg_save_answer : option str;
  arg_env_file : str
}.

(** [main()], from the parsed arguments on: the status it returns, or the
    exception that leaves it. The two paths are wrapped in [Path]. *)
Definition main (w : World) (env : Env) (args : Args) : M Z :=
  let env := load_env_file w env (arg_env_file args) in
  try_except
    (pdf_text <- lift (extract_pdf_text w (path_str w (arg_pdf args))) ;
     ask_gemini w env pdf_text (arg_question args) (arg_model args))
    (fun exc => print_err w (lit "Error: " ++ exc_msg exc) ;; ret 1)
    (fun answer =>
       print w (nl ++ lit "=== Question ===") ;;
       print w (arg_question args) ;;
       print w (nl ++ lit "=== Answer ===") ;;
       print w answer ;;
       if truthy (or_empty (arg_save_answer args))
       then
         let out := path_str w (or_empty (arg_save_answer args)) in
         match write_text w out (answer ++ nl) with
         | Some e => raise e
         | None =>
             emit (WriteText out (answer ++ nl)) ;;
             print w (nl ++ lit "Saved answer to: " ++ out) ;;
             ret 0
         end
       else ret 0).

(** What [main] runs inside its [try] block: extraction, then aggregation,
    in the environment left by [load_env_file]. *)
Definition try_body (w : World) (env : Env) (args : Args) : M str :=
  pdf_text <- lift (extract_pdf_text w (path_str w (arg_pdf args))) ;
  ask_gemini w (load_env_file w env (arg_env_file args)) pdf_text
    (arg_question args) (arg_model args).

(** What [main] runs after its [try] block, once the answer is known. *)
Definition after_try (w : World) (args : Args) (answer : str) : M Z :=
  print w (nl ++ lit "=== Question ===") ;;
  print w (arg_question args) ;;
  print w (nl ++ lit "=== Answer ===") ;;
  print w answer ;;
  if truthy (or_empty (arg_save_answer args))
  then
    let out := path_str w (or_empty (arg_save_answer args)) in
    match write_text w out (answer ++ nl) with
    | Some e => raise e
    | None =>
        emit (WriteText out (answer ++ nl)) ;;
        print w (nl ++ lit "Saved answer to: " ++ out) ;;
        ret 0
    end
  else ret 0.

(** The end of [main]: the answer file, when one is asked for. *)
Definition save_answer (w : World) (args : Args) (answer : str) : M Z :=
  if truthy (or_empty (arg_save_answer args))
  then
    let out := path_str w (or_empty (arg_save_answer args)) in
    match write_text w out (answer ++ nl) with
    | Some e => raise e
    | None =>
        emit (WriteText out (answer ++ nl)) ;;
        print w (nl ++ lit "Saved answer to: " ++ out) ;;
        ret 0
    end
  else ret 0.

(** The four [print] calls of a successful run. *)
Definition report (args : Args) (answer : str) : list Event :=
  [Stdout (nl ++ lit "=== Question ==="); Stdout (arg_question args);
   Stdout (nl ++ lit "=== Answer ==="); Stdout answer].


Definition is_stdout (ev : Event) : bool :=
  match ev with Stdout _ => true | _ => false end.

(** A computation that only adds events to the trace it is given. *)
Definition only_appends (A : Type) (m : M A) : Prop :=
  forall tr, exists more, snd (m tr) = tr ++ more.

(** Every output of a list can be printed. *)
Definition printable (w : World) (evs : list Event) : Prop :=
  Forall (fun ev => print_raises w ev = None) evs.

(** ** Sample runs *)

(** [str(PurePosixPath(s))]: empty and [.] components are dropped, as are
    the slashes at the end; a path that starts with exactly two slashes keeps
    them, and the empty path is written [.]. *)
Fixpoint split_on (sep : char) (s cur : str) : list str :=
  match s with
  | [] => [cur]
  | c :: rest =>
      if char_eqb c sep then cur :: split_on sep rest []
      else split_on sep rest (cur ++ [c])
  end.

Definition posix_path_str (s : str) : str :=
  let parts :=
    filter (fun p => negb (str_eqb p [] || str_eqb p (lit ".")))
           (split_on 47%N s []) in
  let root :=
    match s with
    | 47%N :: 47%N :: 47%N :: _ => lit "/"
    | 47%N :: 47%N :: _ => lit "//"
    | 47%N :: _ => lit "/"
    | _ => []
    end in
  str_or (root ++ join (lit "/") parts) (lit ".").

Definition is_generate (ev : Event) : bool :=
  match ev with GenerateContent _ _ => true | _ => false end.

(** A world with one document, [doc.pdf], of three pages, the second one
    blank; [reply] is the remote model and [writable] tells whether answer
    files can be written. *)
Definition demo_world (reply : list Event -> str -> Result (option str))
    (writable : bool) : World :=
  {| path_exists := fun p => str_eqb p (lit "doc.pdf");
     path_is_file := fun p => str_eqb p (lit "doc.pdf");
     pdf_pages := fun _ =>
       Return [Return (Some (lit " Hello ")); Return None;
               Return (Some (lit "World"))];
     generate_content := fun _ => reply;
     import_genai := None;
     write_text := fun _ _ =>
       if writable then None
       else Some (mkExc LibraryError (lit "Permission denied"));
     load_dotenv := None;
     print_raises := fun _ => None;
     path_str := posix_path_str |}.

(** A world given piece by piece: the pages of every document, whether the
    remote library is installed, the remote model, the environment loader
    and the outputs that cannot be printed. *)
Definition sample_world (pages : list Page) (installed : bool)
    (reply : list Event -> str -> Result (option str))
    (loader : option (str -> Env -> Env))
    (unprintable : Event -> bool) : World :=
  {| path_exists := fun _ => true;
     path_is_file := fun _ => true;
     pdf_pages := fun _ => Return pages;
     import_genai :=
       if installed then None
       else Some (mkExc ModuleNotFoundError (lit "No module named 'google'"));
     generate_content := fun _ => reply;
     write_text := fun _ _ => None;
     load_dotenv := loader;
     print_raises := fun ev =>
       if unprintable ev
       then Some (mkExc LibraryError (lit "Broken pipe"))
       else None;
     path_str := posix_path_str |}.

(** A remote model that always gives the same answer. *)
Definition reply_always : list Event -> str -> Result (option str) :=
  fun _ _ => Return (Some (lit " Hello, World. ")).

(** A remote model that answers the first two calls and then gives no
    text. *)
Definition reply_twice : list Event -> str -> Result (option str) :=
  fun tr _ =>
    if (length (filter is_generate tr) <? 2)%nat
    then Return (Some (lit " part "))
    else Return None.

(** A remote model that answers the first call and fails afterwards. *)
Definition reply_once : list Event -> str -> Result (option str) :=
  fun tr _ =>
    if (length (filter is_generate tr) <? 1)%nat
    then Return (Some (lit " part "))
    else Raise (mkExc LibraryError (lit "quota")).

(** A remote model that answers the first two calls and fails afterwards. *)
Definition reply_then_fail : list Event -> str -> Result (option str) :=
  fun tr _ =>
    if (length (filter is_generate tr) <? 2)%nat
    then Return (Some (lit " part "))
    else Raise (mkExc LibraryError (lit "quota")).

Definition demo_env : Env := [(lit "GEMINI_API_KEY", lit "secret")].

(** A text one character longer than a chunk. *)
Definition long_text : str := repeat 97%N (Z.to_nat (MAX_CONTEXT_CHARS + 1)).

(** A text one character longer than two chunks. *)
Definition longer_text : str :=
  repeat 97%N (Z.to_nat MAX_CONTEXT_CHARS)
  ++ repeat 97%N (Z.to_nat MAX_CONTEXT_CHARS) ++ [97%N].

Definition demo_args (pdf : str) (save : option str) : Args :=
  {| arg_pdf := pdf;
     arg_question := lit "What?";
     arg_model := lit "gemini-1.5-flash";
     arg_save_answer := save;
     arg_env_file := lit ".env" |}.

(** ** Vocabulary of the further properties *)

(** The text between the context and the question in a prompt. *)
Definition question_marker : str := nl ++ nl ++ lit "QUESTION: ".

(** [s.startswith(t)] *)
Definition starts_with (t s : str) : Prop := exists rest, s = t ++ rest.

(** The events [ask_gemini] may add to the trace for a given model name:
    configuring the client and calling that model. *)
Definition aggregator_event (model_name : str) (ev : Event) : Prop :=
  match ev with
  | Configure _ => True
  | GenerateContent m _ => m = model_name
  | _ => False
  end.

(** [args] with its answer path replaced. *)
Definition with_save_answer (args : Args) (save : option str) : Args :=
  {| arg_pdf := arg_pdf args;
     arg_question := arg_question args;
     arg_model := arg_model args;
     arg_save_answer := save;
     arg_env_file := arg_env_file args |}.

(** * Properties *)

(** ** The scenarios of the test suite *)

Example test_chunk_text_small :
  chunk_text (lit "abcdef") 10 = Return [lit "abcdef"].
Proof. reflexivity. Qed.

Example test_chunk_text_split :
  chunk_text (lit "abcdefghij") 4 = Return [lit "abcd"; lit "efgh"; lit "ij"].
Proof. reflexivity. Qed.

Example str_of_int_12 : str_of_int 12 = lit "12".
Proof. reflexivity. Qed.

Example strip_example : strip (lit "  a b ") = lit "a b".
Proof. reflexivity. Qed.

(** ** Lists cut in pieces of a fixed size *)

Section Pieces.
Variable A : Type.

Lemma firstn_then_firstn (a b : nat) (s : list A) :
  firstn a s ++ firstn b (skipn a s) = firstn (a + b) s.
Proof.
  revert s; induction a as [|a IH]; intros s; [reflexivity|].
  destruct s as [|x s]; simpl.
  - now rewrite firstn_nil.
  - now rewrite IH.
Qed.

(** The first [c] pieces of size [m] make up the first [c * m] elements. *)
Lemma concat_pieces (m : nat) (s : list A) (c : nat) :
  concat (map (fun k => firstn m (skipn (k * m) s)) (seq 0 c))
  = firstn (c * m) s.
Proof.
  induction c as [|c IH]; [reflexivity|].
  rewrite seq_S, map_app, concat_app, IH; simpl.
  rewrite app_nil_r, firstn_then_firstn.
  f_equal; lia.
Qed.

Lemma piece_nonempty (m k : nat) (s : list A) :
  (0 < m)%nat -> (k * m < length s)%nat ->
  firstn m (skipn (k * m) s) <> [].
Proof.
  intros Hm Hk E.
  apply (f_equal (@length A)) in E.
  rewrite length_firstn, length_skipn in E; simpl in E. lia.
Qed.
End Pieces.

(** ** The chunker *)

Section Chunker.
Variable text : str.
Variable size : Z.
Hypothesis size_pos : 0 < size.

Lemma range_length_pos :
  range_length 0 (len text) size
  = if 0 <? len text then (len text - 1) / size + 1 else 0.
Proof.
  unfold range_length.
  destruct (0 <? size) eqn:E; [|apply Z.ltb_ge in E; lia].
  now rewrite Z.sub_0_r.
Qed.

(** Every index the loop visits lies inside the text. *)
Lemma chunk_index_inside (k : nat) :
  (k < chunk_count text size)%nat -> Z.of_nat k * size < len text.
Proof.
  unfold chunk_count; rewrite range_length_pos.
  destruct (0 <? len text) eqn:E; [|simpl; lia].
  apply Z.ltb_lt in E. intros Hk.
  assert (Hq : 0 <= (len text - 1) / size) by (apply Z.div_pos; lia).
  assert (Hk' : Z.of_nat k <= (len text - 1) / size) by lia.
  pose proof (Z.mul_div_le (len text - 1) size size_pos) as Hd.
  nia.
Qed.

(** The chunks together reach the end of the text. *)
Lemma chunk_count_covers : len text <= Z.of_nat (chunk_count text size) * size.
Proof.
  unfold chunk_count; rewrite range_length_pos.
  destruct (0 <? len text) eqn:E; [|apply Z.ltb_ge in E; simpl; lia].
  apply Z.ltb_lt in E.
  assert (Hq : 0 <= (len text - 1) / size) by (apply Z.div_pos; lia).
  rewrite Z2Nat.id by lia.
  pose proof (Z.mul_succ_div_gt (len text - 1) size size_pos) as Hd.
  unfold Z.succ in Hd. nia.
Qed.

(** A slice that starts inside the text is a piece of it. *)
Lemma slice_piece (i : Z) :
  0 <= i <= len text ->
  slice text i (i + size)
  = firstn (Z.to_nat size) (skipn (Z.to_nat i) text).
Proof.
  intros Hi. unfold slice, slice_bound.
  destruct (i <? 0) eqn:E1; [apply Z.ltb_lt in E1; lia|].
  destruct (i + size <? 0) eqn:E2; [apply Z.ltb_lt in E2; lia|].
  rewrite (Z.min_l i) by lia.
  destruct (Z.le_gt_cases (i + size) (len text)) as [H|H].
  - rewrite Z.min_l by lia. do 2 f_equal. lia.
  - rewrite Z.min_r by lia.
    rewrite !firstn_all2; trivial; rewrite length_skipn; unfold len in *; lia.
Qed.

Lemma chunk_text_pieces :
  chunk_text text size
  = Return (map (fun k => firstn (Z.to_nat size)
                                 (skipn (k * Z.to_nat size) text))
                (seq 0 (chunk_count text size))).
Proof.
  unfold chunk_text, range.
  destruct (size =? 0) eqn:E; [apply Z.eqb_eq in E; lia|].
  rewrite map_map. f_equal. apply map_ext_in.
  intros k Hk. apply in_seq in Hk.
  pose proof (@chunk_index_inside k) as Hin.
  rewrite slice_piece by (fold (chunk_count text size) in Hk; lia).
  do 2 f_equal. rewrite Z.add_0_l, Z2Nat.inj_mul, Nat2Z.id; lia.
Qed.
End Chunker.

(** C1. For every text and every positive maximum size, [chunk_text] yields
    its chunks without raising, and the chunks concatenated in the order they
    were yielded are exactly the text. *)
Theorem chunk_text_concat (text : str) (size : Z) :
  0 < size ->
  exists chunks, chunk_text text size = Return chunks /\ concat chunks = text.
Proof.
  intros Hs. eexists; split; [apply chunk_text_pieces; exact Hs|].
  rewrite concat_pieces. apply firstn_all2.
  pose proof (chunk_count_covers text Hs) as Hc. unfold len in Hc.
  apply Nat2Z.inj_le. rewrite Nat2Z.inj_mul, Z2Nat.id; lia.
Qed.

Lemma chunk_text_concat_witness :
  0 < 4 /\
  exists chunks,
    chunk_text (lit "abcdefghij") 4 = Return chunks
    /\ concat chunks = lit "abcdefghij".
Proof. split; [lia | apply (@chunk_text_concat (lit "abcdefghij") 4); lia]. Defined.

Lemma chunk_count_empty (size : Z) : 0 < size -> chunk_count [] size = 0%nat.
Proof.
  intros Hs. unfold chunk_count. now rewrite range_length_pos.
Qed.

Lemma chunk_count_short (text : str) (size : Z) :
  text <> [] -> len text <= size -> chunk_count text size = 1%nat.
Proof.
  intros Hne Hle.
  assert (Hlen : 0 < len text) by (destruct text; [easy | unfold len; simpl; lia]).
  unfold chunk_count. rewrite range_length_pos by lia.
  apply Z.ltb_lt in Hlen as Hb; rewrite Hb.
  rewrite Z.div_small by lia. reflexivity.
Qed.

(** C6, as the specification states it, fails on the empty text: it is no
    longer than the maximum size, yet no chunk is yielded for it. *)
Lemma chunk_text_short_empty_counterexample :
  0 < 10 /\ len (lit "") <= 10
  /\ chunk_text (lit "") 10 = Return []
  /\ chunk_text (lit "") 10 <> Return [lit ""].
Proof. repeat split; try reflexivity; try lia; discriminate. Qed.

(** C6 (amended). For every non-empty text no longer than the positive
    maximum size, [chunk_text] yields exactly one chunk, the text itself. *)
Theorem chunk_text_short (text : str) (size : Z) :
  0 < size -> text <> [] -> len text <= size ->
  chunk_text text size = Return [text].
Proof.
  intros Hs Hne Hle.
  rewrite chunk_text_pieces by exact Hs.
  rewrite chunk_count_short by assumption. simpl.
  rewrite firstn_all2; [reflexivity|].
  unfold len in Hle. lia.
Qed.

Lemma chunk_text_short_witness :
  0 < 10 /\ lit "abcdef" <> [] /\ len (lit "abcdef") <= 10
  /\ chunk_text (lit "abcdef") 10 = Return [lit "abcdef"].
Proof.
  assert (H1 : 0 < 10) by lia.
  assert (H2 : lit "abcdef" <> []) by discriminate.
  assert (H3 : len (lit "abcdef") <= 10) by (vm_compute; discriminate).
  exact (conj H1 (conj H2 (conj H3 (chunk_text_short H1 H2 H3)))).
Defined.

(** C7. For every positive maximum size, [chunk_text] yields no empty chunk,
    and on the empty text it yields no chunk at all. *)
Theorem chunk_text_no_empty_chunk (text : str) (size : Z) :
  0 < size ->
  exists chunks,
    chunk_text text size = Return chunks
    /\ (forall c, In c chunks -> c <> [])
    /\ (text = [] -> chunks = []).
Proof.
  intros Hs. eexists; split; [apply chunk_text_pieces; exact Hs|]. split.
  - intros c Hc. apply in_map_iff in Hc as (k & <- & Hk).
    apply in_seq in Hk.
    assert (Hin : Z.of_nat k * size < len text)
      by (apply chunk_index_inside; [exact Hs | lia]).
    apply piece_nonempty; [lia|].
    unfold len in Hin. apply Nat2Z.inj_lt.
    rewrite Nat2Z.inj_mul, Z2Nat.id; lia.
  - intros ->. now rewrite chunk_count_empty.
Qed.

Lemma chunk_text_no_empty_chunk_witness :
  0 < 4 /\
  exists chunks,
    chunk_text (lit "abcdefghij") 4 = Return chunks
    /\ (forall c, In c chunks -> c <> [])
    /\ (lit "abcdefghij" = [] -> chunks = []).
Proof.
  split; [lia | apply (@chunk_text_no_empty_chunk (lit "abcdefghij") 4); lia].
Defined.

(** ** The prompt builder *)

Lemma occurs_in_middle (pre t post : str) : occurs_in t (pre ++ t ++ post).
Proof. now exists pre, post. Qed.

(** C8. The prompt is one fixed template around the context and the question:
    the same three pieces of text for every call, with the context and the
    question placed between them unmodified. Hence the context, the question
    and the fixed instruction (with the phrase to use when the answer is
    absent) all occur in it verbatim. *)
Theorem build_prompt_contains :
  exists pre mid post,
    occurs_in (lit "I could not find that in the PDF.") prompt_instruction
    /\ occurs_in prompt_instruction pre
    /\ forall ctx q,
         build_prompt ctx q = pre ++ ctx ++ mid ++ q ++ post
         /\ occurs_in ctx (build_prompt ctx q)
         /\ occurs_in q (build_prompt ctx q)
         /\ occurs_in prompt_instruction (build_prompt ctx q).
Proof.
  exists (prompt_instruction ++ lit "PDF CONTEXT:" ++ nl),
         (nl ++ nl ++ lit "QUESTION: "),
         (nl ++ lit "ANSWER:").
  split; [|split].
  - exists (lit "You are a careful assistant. Use ONLY the provided PDF context to answer. If the answer is not present, explicitly say: '"),
           (lit "'" ++ nl ++ nl).
    reflexivity.
  - exists [], (lit "PDF CONTEXT:" ++ nl). reflexivity.
  - intros ctx q.
    assert (E : build_prompt ctx q
                = (prompt_instruction ++ lit "PDF CONTEXT:" ++ nl) ++ ctx
                  ++ (nl ++ nl ++ lit "QUESTION: ") ++ q ++ nl ++ lit "ANSWER:").
    { unfold build_prompt. now rewrite <- !app_assoc. }
    split; [exact E|]. split; [|split].
    + rewrite E. apply occurs_in_middle.
    + rewrite E.
      rewrite (app_assoc _ ctx), (app_assoc _ (nl ++ nl ++ lit "QUESTION: ")).
      apply occurs_in_middle.
    + unfold build_prompt. apply (occurs_in_middle []).
Qed.

Example test_build_prompt :
  build_prompt (lit "CTX") (lit "What?")
  = lit "You are a careful assistant. Use ONLY the provided PDF context to answer. If the answer is not present, explicitly say: 'I could not find that in the PDF.'"
    ++ nl ++ nl ++ lit "PDF CONTEXT:" ++ nl ++ lit "CTX" ++ nl ++ nl
    ++ lit "QUESTION: What?" ++ nl ++ lit "ANSWER:".
Proof. reflexivity. Qed.

(** ** Trimming *)

Lemma truthy_true (s : str) : truthy s = true <-> s <> [].
Proof. destruct s; simpl; split; congruence. Qed.

Lemma truthy_false (s : str) : truthy s = false <-> s = [].
Proof. destruct s; simpl; split; congruence. Qed.

Lemma or_empty_some (s : str) : or_empty (Some s) = s.
Proof. now destruct s. Qed.

Lemma lstrip_headed (s : str) : headed (lstrip s).
Proof.
  induction s as [|c s IH]; simpl; [exact I|].
  destruct (isspace c) eqn:E; [exact IH | exact E].
Qed.

Lemma headed_lstrip (s : str) : headed s -> lstrip s = s.
Proof. destruct s as [|c s]; simpl; [reflexivity | now intros ->]. Qed.

(** What [lstrip] removes is a prefix. *)
Lemma lstrip_suffix (s : str) : exists p, s = p ++ lstrip s.
Proof.
  induction s as [|c s [p IH]]; [now exists []|]. simpl.
  destruct (isspace c).
  - exists (c :: p). simpl. now rewrite <- IH.
  - now exists [].
Qed.

Lemma headed_prefix (a b : str) : headed (a ++ b) -> a <> [] -> headed a.
Proof. destruct a; simpl; [congruence | trivial]. Qed.

Lemma headed_app (a b : str) : headed a -> a <> [] -> headed (a ++ b).
Proof. destruct a; simpl; [congruence | trivial]. Qed.

Lemma strip_headed (s : str) : headed (strip s) /\ headed (rev (strip s)).
Proof.
  unfold strip, rstrip. split.
  - destruct (lstrip_suffix (rev (lstrip s))) as [p Hp].
    destruct (lstrip (rev (lstrip s))) as [|c u] eqn:E; [exact I|].
    apply (f_equal (@rev char)) in Hp.
    rewrite rev_involutive, rev_app_distr in Hp.
    apply headed_prefix with (b := rev p).
    + rewrite <- Hp. apply lstrip_headed.
    + intros H. apply (f_equal (@length char)) in H.
      rewrite length_rev in H. discriminate.
  - rewrite rev_involutive. apply lstrip_headed.
Qed.

(** Trimming changes nothing on a string without white space at its ends. *)
Lemma strip_fixed (s : str) : headed s -> headed (rev s) -> strip s = s.
Proof.
  intros H1 H2. unfold strip, rstrip.
  now rewrite (headed_lstrip _ H1), (headed_lstrip _ H2), rev_involutive.
Qed.

Lemma solid_ends (a b c : str) :
  a <> [] -> headed a -> c <> [] -> headed (rev c) -> solid (a ++ b ++ c).
Proof.
  intros Ha Ha1 Hc Hc2. split; [|split].
  - destruct a; simpl; congruence.
  - now apply headed_app.
  - rewrite !rev_app_distr, <- app_assoc. apply headed_app; [exact Hc2|].
    intros H. apply (f_equal (@rev char)) in H.
    rewrite rev_involutive in H. exact (Hc H).
Qed.

Lemma solid_app (a b c : str) : solid a -> solid c -> solid (a ++ b ++ c).
Proof.
  intros (Ha & Ha1 & _) (Hc & _ & Hc2). now apply solid_ends.
Qed.

Lemma join_solid (sep : str) (xs : list str) :
  xs <> [] -> Forall solid xs -> solid (join sep xs).
Proof.
  induction xs as [|x xs IH]; [congruence|]. intros _ HF.
  inversion HF as [|? ? Hx Hxs]; subst.
  destruct xs as [|y rest]; [exact Hx|].
  change (solid (x ++ sep ++ join sep (y :: rest))).
  apply solid_app; [exact Hx | apply IH; [discriminate | exact Hxs]].
Qed.

(** ** The text extractor *)

Lemma enumerate_map (A B : Type) (f : A -> B) (xs : list A) (k : Z) :
  enumerate (map f xs) k = map (fun it => (fst it, f (snd it))) (enumerate xs k).
Proof.
  revert k; induction xs as [|x xs IH]; intros k; simpl; [reflexivity|].
  now rewrite IH.
Qed.

(** When no page raises, the loop keeps the sections of the pages whose
    trimmed text is not empty, after those it already had. *)
Lemma extract_pages_sections (l : list (Z * option str)) (acc : list str) :
  extract_pages (map (fun it => (fst it, Return (snd it))) l) acc
  = Return (acc ++ map (fun it => page_section (fst it) (page_text (snd it)))
                       (filter (fun it => truthy (page_text (snd it))) l)).
Proof.
  revert acc; induction l as [|[i t] l IH]; intros acc; simpl.
  - now rewrite app_nil_r.
  - fold (page_text t). destruct (truthy (page_text t)); rewrite IH.
    + simpl. now rewrite <- app_assoc.
    + reflexivity.
Qed.

Lemma page_section_solid (idx : Z) (t : option str) :
  page_text t <> [] -> solid (page_section idx (page_text t)).
Proof.
  intros H. unfold page_section.
  rewrite (app_assoc (str_of_int idx)), (app_assoc _ nl).
  apply solid_ends; [discriminate | reflexivity | exact H |].
  apply strip_headed.
Qed.

Lemma sections_of_solid (texts : list (option str)) :
  Forall solid (sections_of texts).
Proof.
  unfold sections_of. apply Forall_forall. intros s Hs.
  apply in_map_iff in Hs as ([i t] & <- & Hin).
  apply filter_In in Hin as [_ Hk]. simpl in *.
  apply page_section_solid. now apply truthy_true.
Qed.

Lemma kept_pages_nil (texts : list (option str)) (k : Z) :
  filter (fun it => truthy (page_text (snd it))) (enumerate texts k) = []
  <-> Forall (fun t => page_text t = []) texts.
Proof.
  revert k; induction texts as [|t texts IH]; intros k; simpl.
  - split; [constructor | reflexivity].
  - destruct (truthy (page_text t)) eqn:E.
    + split; [discriminate|]. intros H; inversion H; subst.
      apply truthy_true in E. contradiction.
    + rewrite IH. apply truthy_false in E.
      split; [now constructor | intros H; now inversion H].
Qed.

Lemma sections_of_nil (texts : list (option str)) :
  sections_of texts = [] <-> Forall (fun t => page_text t = []) texts.
Proof.
  unfold sections_of. rewrite <- (kept_pages_nil texts 1).
  split; [apply map_eq_nil | now intros ->].
Qed.

(** The joined sections are empty only when there is no section, and
    trimming them changes nothing. *)
Lemma combined_sections (texts : list (option str)) :
  strip (join (nl ++ nl) (sections_of texts)) = join (nl ++ nl) (sections_of texts)
  /\ (join (nl ++ nl) (sections_of texts) = [] <-> sections_of texts = []).
Proof.
  destruct (sections_of texts) as [|x xs] eqn:E; [now split|].
  assert (S : solid (join (nl ++ nl) (x :: xs))).
  { apply join_solid; [discriminate|]. rewrite <- E. apply sections_of_solid. }
  destruct S as (S0 & S1 & S2). split.
  - now apply strip_fixed.
  - split; [contradiction | discriminate].
Qed.

(** C5. [extract_pdf_text] raises [FileNotFoundError] whenever the path does
    not exist or is not a regular file. For a regular file whose pages extract
    to [texts], the combined text (the kept sections joined by a blank line,
    then trimmed) is empty exactly when no page has text other than white
    space; it raises [ValueError] when the combined text is empty and returns
    the joined text in every other case. *)
Theorem extract_pdf_text_outcome (w : World) (pdf_path : str) :
  (path_exists w pdf_path = false \/ path_is_file w pdf_path = false ->
   extract_pdf_text w pdf_path
   = Raise (mkExc FileNotFoundError (lit "PDF file not found: " ++ pdf_path)))
  /\ (forall texts,
        path_exists w pdf_path = true -> path_is_file w pdf_path = true ->
        pdf_pages w pdf_path = Return (map Return texts) ->
        let joined := join (nl ++ nl) (sections_of texts) in
        (strip joined = [] <-> Forall (fun t => strip (or_empty t) = []) texts)
        /\ (strip joined = [] ->
            extract_pdf_text w pdf_path
            = Raise (mkExc ValueError
                       (lit "Could not extract any text from the PDF.")))
        /\ (strip joined <> [] ->
            extract_pdf_text w pdf_path = Return joined)).
Proof.
  split.
  - intros H. unfold extract_pdf_text.
    destruct H as [-> | ->]; simpl; [reflexivity|].
    now rewrite orb_true_r.
  - intros texts He Hf Hp joined.
    destruct (combined_sections texts) as [Hfix Hnil].
    fold joined in Hfix, Hnil.
    assert (Hrun : extract_pdf_text w pdf_path
                   = if negb (truthy (strip joined))
                     then Raise (mkExc ValueError
                                   (lit "Could not extract any text from the PDF."))
                     else Return (strip joined)).
    { unfold extract_pdf_text. rewrite He, Hf, Hp. simpl.
      now rewrite enumerate_map, extract_pages_sections. }
    split; [|split].
    + rewrite Hfix, Hnil. apply sections_of_nil.
    + intros E. now rewrite Hrun, E.
    + intros N. rewrite Hrun.
      apply truthy_true in N. rewrite N. simpl. now rewrite Hfix.
Qed.

(** ** The answer aggregator *)

Section Aggregator.
Variable w : World.
Variables model_name question : str.

Lemma collect_responses_step (chunk : str) (rest responses : list str)
    (tr : list Event) :
  collect_responses w model_name question (chunk :: rest) responses tr
  = match generate_content w model_name tr (build_prompt chunk question) with
    | Raise e =>
        (Raise e, tr ++ [GenerateContent model_name (build_prompt chunk question)])
    | Return result =>
        collect_responses w model_name question rest
          (if truthy (strip (or_empty result))
           then responses ++ [strip (or_empty result)] else responses)
          (tr ++ [GenerateContent model_name (build_prompt chunk question)])
    end.
Proof.
  simpl. unfold bind, generate.
  destruct (generate_content w model_name tr (build_prompt chunk question));
    [|reflexivity].
  now destruct (truthy (strip (or_empty a))).
Qed.

(** A loop that ends normally has called the remote model once per chunk,
    and has only added non-empty responses. *)
Lemma collect_responses_returns (chunks responses rs : list str)
    (tr tr' : list Event) :
  collect_responses w model_name question chunks responses tr = (Return rs, tr') ->
  tr' = tr ++ chunk_calls model_name question chunks
  /\ exists kept, rs = responses ++ kept /\ Forall (fun r => r <> []) kept.
Proof.
  revert responses tr.
  induction chunks as [|c chunks IH]; intros responses tr H.
  - inversion H; subst. split; [now rewrite app_nil_r|].
    exists []. now rewrite app_nil_r.
  - rewrite collect_responses_step in H.
    destruct (generate_content w model_name tr (build_prompt c question))
      as [result|e]; [|discriminate].
    apply IH in H as (-> & kept & -> & HF).
    split; [unfold chunk_calls; simpl; now rewrite <- app_assoc|].
    destruct (truthy (strip (or_empty result))) eqn:E.
    + exists (strip (or_empty result) :: kept).
      rewrite <- app_assoc. split; [reflexivity|].
      constructor; [now apply truthy_true | exact HF].
    + now exists kept.
Qed.

Lemma ask_gemini_configured (env : Env) (pdf_text key : str)
    (chunks : list str) (tr : list Event) :
  import_genai w = None ->
  getenv env (lit "GEMINI_API_KEY") = Some key -> key <> [] ->
  chunk_text pdf_text MAX_CONTEXT_CHARS = Return chunks ->
  ask_gemini w env pdf_text question model_name tr
  = match collect_responses w model_name question chunks []
            (tr ++ [Configure key]) with
    | (Raise e, tr1) => (Raise e, tr1)
    | (Return [], tr1) =>
        (Raise (mkExc RuntimeError (lit "Gemini returned an empty response.")),
         tr1)
    | (Return [r], tr1) => (Return r, tr1)
    | (Return rs, tr1) =>
        (match generate_content w model_name tr1 (summary_prompt rs) with
         | Raise e => Raise e
         | Return final =>
             Return (str_or (strip (or_empty final)) (join (nl ++ nl) rs))
         end,
         tr1 ++ [GenerateContent model_name (summary_prompt rs)])
    end.
Proof.
  intros Hi Hk Hne Hc. unfold ask_gemini. rewrite Hi, Hk, or_empty_some.
  apply truthy_true in Hne. rewrite Hne. simpl.
  unfold bind at 1. unfold emit.
  unfold bind at 1. unfold lift. rewrite Hc.
  unfold bind at 1.
  destruct (collect_responses w model_name question chunks []
              (tr ++ [Configure key])) as [[rs|e] tr1]; [|reflexivity].
  destruct rs as [|r [|r' rs]]; try reflexivity.
  unfold len_list. 
  replace (Z.of_nat (length (r :: r' :: rs)) =? 1) with false
    by (symmetry; apply Z.eqb_neq; simpl length; lia).
  cbn [negb]. unfold bind, generate, ret.
  now destruct (generate_content w model_name tr1 (summary_prompt (r :: r' :: rs))).
Qed.
End Aggregator.

(** An exception raised by the PDF library leaves [extract_pdf_text]
    unchanged. *)
Lemma extract_pdf_text_library_error (w : World) (pdf_path : str) (e : Exc) :
  path_exists w pdf_path = true -> path_is_file w pdf_path = true ->
  pdf_pages w pdf_path = Raise e ->
  extract_pdf_text w pdf_path = Raise e.
Proof. intros He Hf Hp. unfold extract_pdf_text. now rewrite He, Hf, Hp. Qed.

Lemma extract_pdf_text_outcome_witness :
  path_exists (demo_world reply_always true) (lit "doc.pdf") = true
  /\ path_is_file (demo_world reply_always true) (lit "doc.pdf") = true
  /\ extract_pdf_text (demo_world reply_always true) (lit "doc.pdf")
     = Return (lit "--- Page 1 ---" ++ nl ++ lit "Hello" ++ nl ++ nl
               ++ lit "--- Page 3 ---" ++ nl ++ lit "World").
Proof.
  split; [reflexivity | split; [reflexivity|]].
  refine (proj2 (proj2 (proj2 (extract_pdf_text_outcome
                  (demo_world reply_always true) (lit "doc.pdf"))
                  [Some (lit " Hello "); None; Some (lit "World")]
                  eq_refl eq_refl eq_refl)) _).
  vm_compute. discriminate.
Defined.

(** A credential that is absent or empty stops [ask_gemini] at once. *)
Lemma ask_gemini_no_key (w : World) (env : Env)
    (pdf_text question model_name : str) (tr : list Event) :
  import_genai w = None ->
  truthy (or_empty (getenv env (lit "GEMINI_API_KEY"))) = false ->
  ask_gemini w env pdf_text question model_name tr
  = (Raise (mkExc EnvironmentError
              (lit "GEMINI_API_KEY is not set. Configure it in env or .env.")),
     tr).
Proof. intros Hi H. unfold ask_gemini. now rewrite Hi, H. Qed.

(** When the remote library cannot be imported, the aggregator raises the
    exception of the import and has no effect. *)
Lemma ask_gemini_import_error (w : World) (env : Env)
    (pdf_text question model_name : str) (tr : list Event) (e : Exc) :
  import_genai w = Some e ->
  ask_gemini w env pdf_text question model_name tr = (Raise e, tr).
Proof. intros Hi. unfold ask_gemini. now rewrite Hi. Qed.

(** C4. Without the credential in the environment, [ask_gemini] fails and
    adds nothing to the trace: no remote call is made, whatever the text, the
    question and the model name. Where the remote library can be imported
    (the import is the first statement of the function), the failure is the
    missing-credential error. *)
Theorem ask_gemini_missing_credential (w : World) (env : Env)
    (pdf_text question model_name : str) (tr : list Event) :
  getenv env (lit "GEMINI_API_KEY") = None ->
  exists e,
    ask_gemini w env pdf_text question model_name tr = (Raise e, tr)
    /\ (import_genai w = None ->
        e = mkExc EnvironmentError
              (lit "GEMINI_API_KEY is not set. Configure it in env or .env.")).
Proof.
  intros H. destruct (import_genai w) as [e|] eqn:Hi.
  - exists e. split; [now apply ask_gemini_import_error | discriminate].
  - eexists. split; [|reflexivity].
    apply ask_gemini_no_key; [exact Hi | now rewrite H].
Qed.

Lemma ask_gemini_missing_credential_witness :
  getenv [] (lit "GEMINI_API_KEY") = None
  /\ import_genai (demo_world reply_always true) = None
  /\ exists e,
       ask_gemini (demo_world reply_always true) [] (lit "some text")
         (lit "What?") (lit "gemini-1.5-flash") []
       = (Raise e, [])
       /\ (import_genai (demo_world reply_always true) = None ->
           e = mkExc EnvironmentError
                 (lit "GEMINI_API_KEY is not set. Configure it in env or .env.")).
Proof.
  split; [reflexivity|]. split; [reflexivity|].
  apply (@ask_gemini_missing_credential (demo_world reply_always true) []).
  reflexivity.
Defined.

(** An empty credential counts as missing too. *)
Lemma ask_gemini_empty_credential (w : World) (env : Env)
    (pdf_text question model_name : str) (tr : list Event) :
  import_genai w = None ->
  getenv env (lit "GEMINI_API_KEY") = Some [] ->
  ask_gemini w env pdf_text question model_name tr
  = (Raise (mkExc EnvironmentError
              (lit "GEMINI_API_KEY is not set. Configure it in env or .env.")),
     tr).
Proof. intros Hi H. apply ask_gemini_no_key; [exact Hi | now rewrite H]. Qed.

(** C2. With the remote library imported and a credential configured, when
    the calls for the chunks collect exactly one answer, that answer
    is returned as it is, it is not empty, and the remote model has been
    called once per chunk with the prompt of that chunk and not once more:
    there is no merge call. *)
Theorem ask_gemini_single (w : World) (env : Env)
    (pdf_text question model_name key : str) (chunks : list str)
    (a : str) (tr tr1 : list Event) :
  import_genai w = None ->
  getenv env (lit "GEMINI_API_KEY") = Some key -> key <> [] ->
  chunk_text pdf_text MAX_CONTEXT_CHARS = Return chunks ->
  collect_responses w model_name question chunks [] (tr ++ [Configure key])
  = (Return [a], tr1) ->
  ask_gemini w env pdf_text question model_name tr = (Return a, tr1)
  /\ tr1 = tr ++ [Configure key] ++ chunk_calls model_name question chunks
  /\ a <> [].
Proof.
  intros Hi Hk Hne Hc Hl.
  rewrite (ask_gemini_configured w model_name question env tr Hi Hk Hne Hc), Hl.
  apply collect_responses_returns in Hl as (-> & kept & E & HF).
  split; [reflexivity|]. split; [now rewrite <- app_assoc|].
  simpl in E. subst kept. now inversion HF.
Qed.

Lemma ask_gemini_single_witness :
  ask_gemini (demo_world reply_always true) demo_env (lit "some text")
    (lit "What?") (lit "gemini-1.5-flash") []
  = (Return (lit "Hello, World."),
     [Configure (lit "secret");
      GenerateContent (lit "gemini-1.5-flash")
        (build_prompt (lit "some text") (lit "What?"))])
  /\ [Configure (lit "secret");
      GenerateContent (lit "gemini-1.5-flash")
        (build_prompt (lit "some text") (lit "What?"))]
     = [] ++ [Configure (lit "secret")]
       ++ chunk_calls (lit "gemini-1.5-flash") (lit "What?") [lit "some text"]
  /\ lit "Hello, World." <> [].
Proof.
  apply (@ask_gemini_single (demo_world reply_always true) demo_env
           (lit "some text") (lit "What?") (lit "gemini-1.5-flash")
           (lit "secret") [lit "some text"]).
  - reflexivity.
  - reflexivity.
  - discriminate.
  - reflexivity.
  - reflexivity.
Defined.

(** The sections of the merge prompt: the answer at position [k], counted
    from [start], is labelled with the number [k + 1]. *)
Lemma partial_sections_nth (rs : list str) (start : Z) (k : nat) (r : str) :
  nth_error rs k = Some r ->
  nth_error (map partial_section (enumerate rs start)) k
  = Some (lit "Partial answer " ++ str_of_int (start + Z.of_nat k + 1)
          ++ lit ":" ++ nl ++ r).
Proof.
  revert start k; induction rs as [|x rs IH]; intros start k H.
  - destruct k; discriminate.
  - destruct k as [|k]; simpl in H; cbn [enumerate map nth_error].
    + inversion H; subst. now rewrite Z.add_0_r.
    + rewrite (IH _ _ H). do 4 f_equal. lia.
Qed.

Lemma enumerate_length (A : Type) (xs : list A) (start : Z) :
  length (enumerate xs start) = length xs.
Proof.
  revert start; induction xs as [|x xs IH]; intros start; simpl; [reflexivity|].
  now rewrite IH.
Qed.

(** C3. With the remote library imported and a credential configured, when
    the calls for the chunks collect more than one answer, one more
    remote call is made, with the merge prompt; its trimmed text is returned
    when it is not empty, and otherwise the collected answers joined by a blank
    line, in the order they were collected. The merge prompt is the merge
    instruction followed by one section per answer, the answer at position
    [k] (from 0) labelled "Partial answer k+1". *)
Theorem ask_gemini_merge (w : World) (env : Env)
    (pdf_text question model_name key : str) (chunks rs : list str)
    (tr tr1 : list Event) (final : option str) :
  import_genai w = None ->
  getenv env (lit "GEMINI_API_KEY") = Some key -> key <> [] ->
  chunk_text pdf_text MAX_CONTEXT_CHARS = Return chunks ->
  collect_responses w model_name question chunks [] (tr ++ [Configure key])
  = (Return rs, tr1) ->
  (1 < length rs)%nat ->
  generate_content w model_name tr1 (summary_prompt rs) = Return final ->
  exists answer sections,
    ask_gemini w env pdf_text question model_name tr
    = (Return answer, tr1 ++ [GenerateContent model_name (summary_prompt rs)])
    /\ (strip (or_empty final) <> [] -> answer = strip (or_empty final))
    /\ (strip (or_empty final) = [] -> answer = join (nl ++ nl) rs)
    /\ summary_prompt rs = merge_instruction ++ join (nl ++ nl) sections
    /\ length sections = length rs
    /\ forall k r,
         nth_error rs k = Some r ->
         nth_error sections k
         = Some (lit "Partial answer " ++ str_of_int (Z.of_nat k + 1)
                 ++ lit ":" ++ nl ++ r).
Proof.
  intros Hi Hk Hne Hc Hl Hlen Hm.
  exists (str_or (strip (or_empty final)) (join (nl ++ nl) rs)),
         (map partial_section (enumerate rs 0)).
  split; [|split; [|split; [|split; [|split]]]].
  - rewrite (ask_gemini_configured w model_name question env tr Hi Hk Hne Hc), Hl.
    destruct rs as [|r [|r' rs]]; simpl in Hlen; try lia.
    now rewrite Hm.
  - intros N. apply truthy_true in N. unfold str_or. now rewrite N.
  - intros E. unfold str_or. now rewrite E.
  - reflexivity.
  - now rewrite length_map, enumerate_length.
  - intros k r H. now rewrite (partial_sections_nth _ 0 _ H).
Qed.

(** A text one character longer than the chunk size makes two chunks. *)
Lemma chunk_text_one_more (x : char) (size : Z) :
  0 < size ->
  chunk_text (repeat x (Z.to_nat (size + 1))) size
  = Return [repeat x (Z.to_nat size); [x]].
Proof.
  intros Hs. rewrite chunk_text_pieces by exact Hs.
  assert (Hc : chunk_count (repeat x (Z.to_nat (size + 1))) size = 2%nat).
  { unfold chunk_count. rewrite range_length_pos by exact Hs.
    unfold len. rewrite repeat_length, Z2Nat.id by lia.
    replace (0 <? size + 1) with true by (symmetry; apply Z.ltb_lt; lia).
    replace (size + 1 - 1) with size by lia.
    rewrite Z.div_same by lia. reflexivity. }
  rewrite Hc. cbn [seq map].
  rewrite Z2Nat.inj_add by lia.
  change (Z.to_nat 1) with 1%nat.
  rewrite repeat_app. cbn [repeat].
  rewrite Nat.mul_0_l, Nat.mul_1_l. cbn [skipn].
  assert (Hl : length (repeat x (Z.to_nat size)) = Z.to_nat size)
    by apply repeat_length.
  rewrite firstn_app, skipn_app, Hl, Nat.sub_diag.
  rewrite firstn_all2, skipn_all2 by lia.
  cbn [firstn skipn app]. rewrite app_nil_r.
  rewrite (@firstn_all2 _ (Z.to_nat size) [x]) by (simpl; lia).
  reflexivity.
Qed.

(** The loop over two chunks, with a remote model that answers twice. *)
Lemma collect_responses_twice (model_name question key c1 c2 : str) :
  collect_responses (demo_world reply_twice true) model_name question
    [c1; c2] [] ([] ++ [Configure key])
  = (Return [lit "part"; lit "part"],
     [Configure key] ++ chunk_calls model_name question [c1; c2]).
Proof. reflexivity. Qed.

Lemma reply_twice_silent (model_name question key c1 c2 prompt : str) :
  generate_content (demo_world reply_twice true) model_name
    ([Configure key] ++ chunk_calls model_name question [c1; c2]) prompt
  = Return None.
Proof. reflexivity. Qed.

Lemma ask_gemini_merge_witness :
  exists answer sections,
    ask_gemini (demo_world reply_twice true) demo_env long_text (lit "What?")
      (lit "gemini-1.5-flash") []
    = (Return answer,
       ([Configure (lit "secret")]
        ++ chunk_calls (lit "gemini-1.5-flash") (lit "What?")
             [repeat 97%N (Z.to_nat MAX_CONTEXT_CHARS); [97%N]])
       ++ [GenerateContent (lit "gemini-1.5-flash")
             (summary_prompt [lit "part"; lit "part"])])
    /\ (strip (or_empty None) <> [] -> answer = strip (or_empty None))
    /\ (strip (or_empty None) = [] ->
        answer = join (nl ++ nl) [lit "part"; lit "part"])
    /\ summary_prompt [lit "part"; lit "part"]
       = merge_instruction ++ join (nl ++ nl) sections
    /\ length sections = length [lit "part"; lit "part"]
    /\ forall k r,
         nth_error [lit "part"; lit "part"] k = Some r ->
         nth_error sections k
         = Some (lit "Partial answer " ++ str_of_int (Z.of_nat k + 1)
                 ++ lit ":" ++ nl ++ r).
Proof.
  refine (@ask_gemini_merge (demo_world reply_twice true) demo_env long_text
            (lit "What?") (lit "gemini-1.5-flash") (lit "secret")
            [repeat 97%N (Z.to_nat MAX_CONTEXT_CHARS); [97%N]]
            [lit "part"; lit "part"] [] _ None
            eq_refl eq_refl _ _ _ _ _).
  - discriminate.
  - apply chunk_text_one_more. reflexivity.
  - apply collect_responses_twice.
  - simpl. lia.
  - apply reply_twice_silent.
Defined.

Example merge_prompt_example :
  summary_prompt [lit "yes"; lit "no"]
  = merge_instruction ++ lit "Partial answer 1:" ++ nl ++ lit "yes" ++ nl ++ nl
    ++ lit "Partial answer 2:" ++ nl ++ lit "no".
Proof. reflexivity. Qed.

Lemma join_nonempty (sep x : str) (xs : list str) :
  x <> [] -> join sep (x :: xs) <> [].
Proof.
  intros Hx. destruct xs as [|y xs]; [exact Hx|].
  change (x ++ sep ++ join sep (y :: xs) <> []).
  destruct x; [congruence | discriminate].
Qed.

(** C10. Whenever [ask_gemini] returns, the answer it returns is not the
    empty string. *)
Theorem ask_gemini_nonempty (w : World) (env : Env)
    (pdf_text question model_name : str) (tr tr1 : list Event) (a : str) :
  ask_gemini w env pdf_text question model_name tr = (Return a, tr1) ->
  a <> [].
Proof.
  intros H.
  destruct (import_genai w) as [ei|] eqn:Hi.
  { rewrite (ask_gemini_import_error _ _ _ _ _ _ Hi) in H. discriminate. }
  destruct (truthy (or_empty (getenv env (lit "GEMINI_API_KEY")))) eqn:Ht.
  2:{ rewrite ask_gemini_no_key in H by assumption. discriminate. }
  destruct (getenv env (lit "GEMINI_API_KEY")) as [[|c key]|] eqn:Hk;
    try discriminate.
  pose proof (@chunk_text_pieces pdf_text MAX_CONTEXT_CHARS eq_refl) as Hc.
  set (chunks := map _ _) in Hc.
  rewrite (@ask_gemini_configured w model_name question env pdf_text
             (c :: key) chunks tr Hi Hk ltac:(discriminate) Hc) in H.
  destruct (collect_responses w model_name question chunks []
              (tr ++ [Configure (c :: key)])) as [[rs|e] tr2] eqn:Hl;
    [|discriminate].
  apply collect_responses_returns in Hl as (_ & kept & E & HF).
  simpl in E. subst kept.
  destruct rs as [|r [|r' rs]]; [discriminate | |].
  - injection H as <- _. now inversion HF.
  - destruct (generate_content w model_name tr2 (summary_prompt (r :: r' :: rs)))
      as [final|e]; [|discriminate].
    injection H as <- _. unfold str_or.
    destruct (truthy (strip (or_empty final))) eqn:T.
    + now apply truthy_true.
    + apply (@join_nonempty (nl ++ nl) r (r' :: rs)). now inversion HF.
Qed.

Lemma ask_gemini_nonempty_witness :
  ask_gemini (demo_world reply_always true) demo_env (lit "some text")
    (lit "What?") (lit "gemini-1.5-flash") []
  = (Return (lit "Hello, World."),
     [Configure (lit "secret");
      GenerateContent (lit "gemini-1.5-flash")
        (build_prompt (lit "some text") (lit "What?"))])
  /\ lit "Hello, World." <> [].
Proof.
  split; [reflexivity|].
  apply (@ask_gemini_nonempty (demo_world reply_always true) demo_env
           (lit "some text") (lit "What?") (lit "gemini-1.5-flash") []
           [Configure (lit "secret");
            GenerateContent (lit "gemini-1.5-flash")
              (build_prompt (lit "some text") (lit "What?"))]).
  reflexivity.
Defined.

(** ** The command-line driver *)

Lemma main_unfold (w : World) (env : Env) (args : Args) (tr : list Event) :
  main w env args tr
  = match try_body w env args tr with
    | (Raise e, tr1) =>
        match print_raises w (Stderr (lit "Error: " ++ exc_msg e)) with
        | Some e' => (Raise e', tr1)
        | None => (Return 1, tr1 ++ [Stderr (lit "Error: " ++ exc_msg e)])
        end
    | (Return answer, tr1) => after_try w args answer tr1
    end.
Proof.
  unfold main, try_except. fold (try_body w env args).
  destruct (try_body w env args tr) as [[answer|e] tr1]; [reflexivity|].
  unfold print_err, output, bind.
  now destruct (print_raises w (Stderr (lit "Error: " ++ exc_msg e))).
Qed.





(** The paths are written as [pathlib] writes them. *)
Example main_saves_answer_normalised :
  main (demo_world reply_always true) demo_env
    (demo_args (lit "./doc.pdf") (Some (lit "./out.txt"))) []
  = (Return 0,
     [Configure (lit "secret");
      GenerateContent (lit "gemini-1.5-flash")
        (build_prompt
           (lit "--- Page 1 ---" ++ nl ++ lit "Hello" ++ nl ++ nl
            ++ lit "--- Page 3 ---" ++ nl ++ lit "World")
           (lit "What?"));
      Stdout (nl ++ lit "=== Question ==="); Stdout (lit "What?");
      Stdout (nl ++ lit "=== Answer ==="); Stdout (lit "Hello, World.");
      WriteText (lit "out.txt") (lit "Hello, World." ++ nl);
      Stdout (nl ++ lit "Saved answer to: out.txt")]).
Proof. reflexivity. Qed.

Example posix_path_str_examples :
  posix_path_str (lit "./x") = lit "x"
  /\ posix_path_str (lit "a//b/./c/") = lit "a/b/c"
  /\ posix_path_str (lit "") = lit "."
  /\ posix_path_str (lit "/") = lit "/"
  /\ posix_path_str (lit "//a") = lit "//a"
  /\ posix_path_str (lit "///a") = lit "/a"
  /\ posix_path_str (lit "a/../b") = lit "a/../b".
Proof. repeat split. Qed.

Example main_saves_answer :
  main (demo_world reply_always true) demo_env
    (demo_args (lit "doc.pdf") (Some (lit "out.txt"))) []
  = (Return 0,
     [Configure (lit "secret");
      GenerateContent (lit "gemini-1.5-flash")
        (build_prompt
           (lit "--- Page 1 ---" ++ nl ++ lit "Hello" ++ nl ++ nl
            ++ lit "--- Page 3 ---" ++ nl ++ lit "World")
           (lit "What?"));
      Stdout (nl ++ lit "=== Question ==="); Stdout (lit "What?");
      Stdout (nl ++ lit "=== Answer ==="); Stdout (lit "Hello, World.");
      WriteText (lit "out.txt") (lit "Hello, World." ++ nl);
      Stdout (nl ++ lit "Saved answer to: out.txt")]).
Proof. reflexivity. Qed.

(** * Further properties *)

(** ** The chunker: sizes and count *)

Lemma piece_length (A : Type) (m k : nat) (s : list A) :
  length (firstn m (skipn (k * m) s)) = Nat.min m (length s - k * m).
Proof. now rewrite length_firstn, length_skipn. Qed.

Lemma pieces_nth (A : Type) (f : nat -> list A) (c k : nat) (x : list A) :
  nth_error (map f (seq 0 c)) k = Some x -> (k < c)%nat /\ x = f k.
Proof.
  intros H.
  assert (Hk : (k < c)%nat).
  { rewrite <- (length_seq c 0), <- (length_map f).
    apply nth_error_Some. now rewrite H. }
  split; [exact Hk|].
  rewrite nth_error_map, nth_error_seq in H.
  destruct (k <? c)%nat eqn:E; [|apply Nat.ltb_ge in E; lia].
  simpl in H. now injection H as <-.
Qed.

(** X1. For a positive size, every chunk has between 1 and [size]
    characters, and every chunk but the last has exactly [size]. *)
Theorem chunk_text_lengths (text : str) (size : Z) (chunks : list str) :
  0 < size ->
  chunk_text text size = Return chunks ->
  (forall c, In c chunks -> 0 < len c <= size)
  /\ (forall k c, nth_error chunks k = Some c ->
                  (S k < length chunks)%nat -> len c = size).
Proof.
  intros Hs H. rewrite chunk_text_pieces in H by exact Hs.
  injection H as <-. split.
  - intros c Hc. apply in_map_iff in Hc as (k & <- & Hk).
    apply in_seq in Hk.
    assert (Hin : Z.of_nat k * size < len text)
      by (apply chunk_index_inside; [exact Hs | lia]).
    unfold len in *. rewrite piece_length. nia.
  - intros k c Hn Hlast. rewrite length_map, length_seq in Hlast.
    apply pieces_nth in Hn as [_ ->].
    assert (Hin : Z.of_nat (S k) * size < len text)
      by (apply chunk_index_inside; [exact Hs | lia]).
    unfold len in *. rewrite piece_length. nia.
Qed.

Lemma chunk_text_lengths_witness :
  0 < 4
  /\ chunk_text (lit "abcdefghij") 4 = Return [lit "abcd"; lit "efgh"; lit "ij"]
  /\ (forall c, In c [lit "abcd"; lit "efgh"; lit "ij"] -> 0 < len c <= 4)
  /\ (forall k c, nth_error [lit "abcd"; lit "efgh"; lit "ij"] k = Some c ->
                  (S k < length [lit "abcd"; lit "efgh"; lit "ij"])%nat ->
                  len c = 4).
Proof.
  assert (H1 : 0 < 4) by lia.
  assert (H2 : chunk_text (lit "abcdefghij") 4
               = Return [lit "abcd"; lit "efgh"; lit "ij"]) by reflexivity.
  exact (conj H1 (conj H2 (@chunk_text_lengths _ _ _ H1 H2))).
Defined.

(** X2. For a positive size, the number of chunks is the length of the text
    divided by the size, rounded up. *)
Theorem chunk_text_count (text : str) (size : Z) :
  0 < size ->
  exists chunks,
    chunk_text text size = Return chunks
    /\ len_list chunks = (len text + size - 1) / size.
Proof.
  intros Hs. eexists; split; [apply chunk_text_pieces; exact Hs|].
  unfold len_list. rewrite length_map, length_seq.
  unfold chunk_count. rewrite range_length_pos by exact Hs.
  replace (len text + size - 1) with (len text - 1 + 1 * size) by lia.
  rewrite Z.div_add by lia.
  destruct (0 <? len text) eqn:E.
  - apply Z.ltb_lt in E.
    assert (0 <= (len text - 1) / size) by (apply Z.div_pos; lia).
    lia.
  - apply Z.ltb_ge in E.
    assert (E0 : len text = 0) by (unfold len in *; lia).
    rewrite E0. simpl Z.to_nat.
    replace (0 - 1) with (-1) by lia.
    assert ((-1) / size = -1).
    { symmetry. apply (Z.div_unique_pos (-1) size (-1) (size - 1)); lia. }
    lia.
Qed.

Lemma chunk_text_count_witness :
  0 < 4 /\
  exists chunks,
    chunk_text (lit "abcdefghij") 4 = Return chunks
    /\ len_list chunks = (len (lit "abcdefghij") + 4 - 1) / 4.
Proof.
  split; [lia | apply (@chunk_text_count (lit "abcdefghij") 4); lia].
Defined.

(** X3. A size that is not positive never produces a chunk: size zero raises
    [ValueError] when the chunks are asked for, and a negative size yields no
    chunk at all, whatever the text. *)
Theorem chunk_text_nonpositive_size (text : str) (size : Z) :
  size <= 0 ->
  (size = 0 ->
   chunk_text text size
   = Raise (mkExc ValueError (lit "range() arg 3 must not be zero")))
  /\ (size < 0 -> chunk_text text size = Return []).
Proof.
  intros _. split.
  - now intros ->.
  - intros Hn. unfold chunk_text, range, range_length.
    destruct (size =? 0) eqn:E0; [apply Z.eqb_eq in E0; lia|].
    destruct (0 <? size) eqn:E1; [apply Z.ltb_lt in E1; lia|].
    destruct (len text <? 0) eqn:E2;
      [apply Z.ltb_lt in E2; unfold len in E2; lia | reflexivity].
Qed.

Lemma chunk_text_nonpositive_size_witness :
  -3 <= 0
  /\ (-3 = 0 ->
      chunk_text (lit "abcdef") (-3)
      = Raise (mkExc ValueError (lit "range() arg 3 must not be zero")))
  /\ (-3 < 0 -> chunk_text (lit "abcdef") (-3) = Return []).
Proof.
  split; [lia | apply (@chunk_text_nonpositive_size (lit "abcdef") (-3)); lia].
Defined.

(** ** The prompt builder: size and ambiguity *)

Lemma len_app (a b : str) : len (a ++ b) = len a + len b.
Proof. unfold len. rewrite length_app. lia. Qed.

Lemma len_build_prompt (ctx q : str) :
  len (build_prompt ctx q) = len ctx + len q + 190.
Proof.
  unfold build_prompt. rewrite !len_app.
  change (len prompt_instruction) with 157.
  change (len (lit "PDF CONTEXT:")) with 12.
  change (len (lit "QUESTION: ")) with 10.
  change (len (lit "ANSWER:")) with 7.
  change (len nl) with 1. lia.
Qed.

(** X4. A prompt is 190 characters longer than its context and its question
    together. *)
Theorem build_prompt_length (ctx q : str) :
  len (build_prompt ctx q) = len ctx + len q + 190.
Proof. apply len_build_prompt. Qed.

(** The prompt as its three fixed pieces around the context and the
    question. *)
Lemma build_prompt_pieces (ctx q : str) :
  build_prompt ctx q
  = (prompt_instruction ++ lit "PDF CONTEXT:" ++ nl)
    ++ ctx ++ question_marker ++ q ++ (nl ++ lit "ANSWER:").
Proof. unfold build_prompt, question_marker. now rewrite <- !app_assoc. Qed.

(** X5. With the context fixed, the prompt determines the question; with the
    question fixed, it determines the context. *)
Theorem build_prompt_injective (ctx ctx' q q' : str) :
  (build_prompt ctx q = build_prompt ctx q' -> q = q')
  /\ (build_prompt ctx q = build_prompt ctx' q -> ctx = ctx').
Proof.
  rewrite !build_prompt_pieces. split; intros H.
  - do 3 apply app_inv_head in H. now apply app_inv_tail in H.
  - apply app_inv_head in H. now apply app_inv_tail in H.
Qed.

(** X6. The template does not delimit the context from the question: text
    that follows the question marker inside the context reads the same as a
    question that starts with it. *)
Theorem build_prompt_ambiguous (a b c : str) :
  build_prompt (a ++ question_marker ++ b) c
  = build_prompt a (b ++ question_marker ++ c).
Proof. rewrite !build_prompt_pieces. now rewrite <- !app_assoc. Qed.

(** ** The text extractor: shape of the result, failing pages, numbering *)

(** Outcome of the extractor on a regular file none of whose pages raises. *)
Lemma extract_pdf_text_run (w : World) (pdf_path : str)
    (texts : list (option str)) :
  path_exists w pdf_path = true -> path_is_file w pdf_path = true ->
  pdf_pages w pdf_path = Return (map Return texts) ->
  extract_pdf_text w pdf_path
  = match sections_of texts with
    | [] => Raise (mkExc ValueError
                     (lit "Could not extract any text from the PDF."))
    | _ :: _ => Return (join (nl ++ nl) (sections_of texts))
    end.
Proof.
  intros He Hf Hp. unfold extract_pdf_text. rewrite He, Hf, Hp. simpl orb.
  cbv iota. rewrite enumerate_map, extract_pages_sections.
  change ([] ++ ?l) with l. fold (sections_of texts).
  destruct (combined_sections texts) as [Hfix Hnil]. rewrite Hfix.
  destruct (sections_of texts) as [|x xs] eqn:E; [reflexivity|].
  assert (J : join (nl ++ nl) (x :: xs) <> [])
    by (intros J; now apply Hnil in J).
  apply truthy_true in J. now rewrite J.
Qed.

Lemma extract_pages_app (l1 l2 : list (Z * Page)) (acc : list str) :
  extract_pages (l1 ++ l2) acc
  = match extract_pages l1 acc with
    | Return a => extract_pages l2 a
    | Raise e => Raise e
    end.
Proof.
  revert acc; induction l1 as [|[i [t|e]] l1 IH]; intros acc; simpl;
    try reflexivity.
  destruct (truthy (strip (or_empty t))); apply IH.
Qed.

Lemma enumerate_app (A : Type) (a b : list A) (k : Z) :
  enumerate (a ++ b) k = enumerate a k ++ enumerate b (k + len_list a).
Proof.
  revert k; induction a as [|x a IH]; intros k; simpl.
  - unfold len_list. simpl. now rewrite Z.add_0_r.
  - rewrite IH. do 3 f_equal. unfold len_list. simpl length. lia.
Qed.

Lemma enumerate_In (A : Type) (xs : list A) (start : Z) (k : nat) (x : A) :
  nth_error xs k = Some x -> In (start + Z.of_nat k, x) (enumerate xs start).
Proof.
  revert start k; induction xs as [|y xs IH]; intros start k H.
  - destruct k; discriminate.
  - destruct k as [|k]; simpl in H.
    + injection H as ->. left. f_equal. simpl. lia.
    + right. replace (start + Z.of_nat (S k)) with (start + 1 + Z.of_nat k) by lia.
      now apply IH.
Qed.

Lemma enumerate_nth (A : Type) (xs : list A) (start : Z) (k : nat) (x : A) :
  nth_error xs k = Some x ->
  nth_error (enumerate xs start) k = Some (start + Z.of_nat k, x).
Proof.
  revert start k; induction xs as [|y xs IH]; intros start k H.
  - destruct k; discriminate.
  - destruct k as [|k]; simpl in H; cbn [enumerate nth_error].
    + injection H as ->. f_equal. f_equal. simpl. lia.
    + rewrite (IH _ _ H). do 2 f_equal. lia.
Qed.

Lemma join_occurs (sep s : str) (xs : list str) :
  In s xs -> occurs_in s (join sep xs).
Proof.
  induction xs as [|x xs IH]; [easy|]. intros [-> | H].
  - destruct xs as [|y xs].
    + exists [], []. simpl. now rewrite app_nil_r.
    + exists [], (sep ++ join sep (y :: xs)). reflexivity.
  - destruct xs as [|y xs]; [easy|].
    destruct (IH H) as (pre & post & E).
    exists (x ++ sep ++ pre), post.
    change (x ++ sep ++ join sep (y :: xs) = (x ++ sep ++ pre) ++ s ++ post).
    rewrite E. now rewrite <- !app_assoc.
Qed.

Lemma join_starts (sep x : str) (xs : list str) :
  starts_with x (join sep (x :: xs)).
Proof.
  destruct xs as [|y xs].
  - exists []. simpl. now rewrite app_nil_r.
  - now exists (sep ++ join sep (y :: xs)).
Qed.

Lemma starts_with_trans (a b c : str) :
  starts_with a b -> starts_with b c -> starts_with a c.
Proof.
  intros [r1 ->] [r2 ->]. exists (r1 ++ r2). now rewrite app_assoc.
Qed.

(** Every section the loop keeps is a page section without white space at
    its ends. *)
Lemma extract_pages_sections_shape (pages : list (Z * Page))
    (acc all : list str) :
  Forall (fun s => solid s /\ starts_with (lit "--- Page ") s) acc ->
  extract_pages pages acc = Return all ->
  Forall (fun s => solid s /\ starts_with (lit "--- Page ") s) all.
Proof.
  revert acc; induction pages as [|[i [t|e]] pages IH]; intros acc HF H;
    simpl in H.
  - now injection H as <-.
  - destruct (truthy (strip (or_empty t))) eqn:E.
    + apply (fun F => IH _ F H).
      apply Forall_app. split; [exact HF|]. constructor; [|constructor].
      split.
      * apply (page_section_solid i t). now apply truthy_true.
      * unfold page_section. now eexists.
    + now apply (IH acc).
  - discriminate.
Qed.

(** X7. A text returned by the extractor is never empty, carries no white
    space at its ends (trimming it again changes nothing), and starts with a
    page marker. *)
Theorem extract_pdf_text_shape (w : World) (pdf_path text : str) :
  extract_pdf_text w pdf_path = Return text ->
  text <> [] /\ strip text = text /\ starts_with (lit "--- Page ") text.
Proof.
  unfold extract_pdf_text. intros H.
  destruct (negb (path_exists w pdf_path) || negb (path_is_file w pdf_path));
    [discriminate|].
  destruct (pdf_pages w pdf_path) as [pages|e]; [|discriminate].
  destruct (extract_pages (enumerate pages 1) []) as [all|e] eqn:Hall;
    [|discriminate].
  apply (extract_pages_sections_shape _ (Forall_nil _)) in Hall.
  remember (join (nl ++ nl) all) as j eqn:Ej.
  destruct (negb (truthy (strip j))) eqn:T; [discriminate|].
  injection H as <-.
  destruct all as [|x xs]; [subst j; discriminate|].
  assert (S : solid j).
  { subst j. apply join_solid; [discriminate|].
    eapply Forall_impl; [|exact Hall]. now intros s [Hs _]. }
  destruct S as (S0 & S1 & S2).
  rewrite (strip_fixed _ S1 S2). split; [exact S0|]. split.
  - now apply strip_fixed.
  - inversion Hall as [|? ? [_ Hx] _]; subst.
    eapply starts_with_trans; [exact Hx | apply join_starts].
Qed.

Lemma extract_pdf_text_shape_witness :
  extract_pdf_text (demo_world reply_always true) (lit "doc.pdf")
  = Return (lit "--- Page 1 ---" ++ nl ++ lit "Hello" ++ nl ++ nl
            ++ lit "--- Page 3 ---" ++ nl ++ lit "World")
  /\ (lit "--- Page 1 ---" ++ nl ++ lit "Hello" ++ nl ++ nl
      ++ lit "--- Page 3 ---" ++ nl ++ lit "World" <> []
      /\ strip (lit "--- Page 1 ---" ++ nl ++ lit "Hello" ++ nl ++ nl
                ++ lit "--- Page 3 ---" ++ nl ++ lit "World")
         = lit "--- Page 1 ---" ++ nl ++ lit "Hello" ++ nl ++ nl
           ++ lit "--- Page 3 ---" ++ nl ++ lit "World"
      /\ starts_with (lit "--- Page ")
           (lit "--- Page 1 ---" ++ nl ++ lit "Hello" ++ nl ++ nl
            ++ lit "--- Page 3 ---" ++ nl ++ lit "World")).
Proof.
  split; [reflexivity|].
  apply (@extract_pdf_text_shape (demo_world reply_always true) (lit "doc.pdf")).
  reflexivity.
Defined.

(** X8. When a page raises while its text is extracted, the extractor raises
    that exception, whatever text the pages before it gave and whatever the
    pages after it would give: no partial text is returned. *)
Theorem extract_pdf_text_page_error (w : World) (pdf_path : str)
    (texts : list (option str)) (e : Exc) (rest : list Page) :
  path_exists w pdf_path = true -> path_is_file w pdf_path = true ->
  pdf_pages w pdf_path = Return (map Return texts ++ Raise e :: rest) ->
  extract_pdf_text w pdf_path = Raise e.
Proof.
  intros He Hf Hp. unfold extract_pdf_text. rewrite He, Hf, Hp. simpl orb.
  cbv iota. rewrite enumerate_app, extract_pages_app.
  now rewrite enumerate_map, extract_pages_sections.
Qed.

Lemma extract_pdf_text_page_error_witness :
  extract_pdf_text
    (sample_world (map Return [Some (lit "Hello")]
                   ++ Raise (mkExc LibraryError (lit "bad page"))
                      :: [Return (Some (lit "World"))])
       true reply_always None (fun _ => false))
    (lit "doc.pdf")
  = Raise (mkExc LibraryError (lit "bad page")).
Proof.
  apply (@extract_pdf_text_page_error _ (lit "doc.pdf") [Some (lit "Hello")]
           (mkExc LibraryError (lit "bad page")) [Return (Some (lit "World"))]);
    reflexivity.
Defined.

(** X9. Every page with text other than white space appears in the extracted
    text, trimmed, under the number it has in the document (counted from 1),
    also when pages before it were blank and skipped. *)
Theorem extract_pdf_text_page_number (w : World) (pdf_path : str)
    (texts : list (option str)) (k : nat) (t : option str) :
  path_exists w pdf_path = true -> path_is_file w pdf_path = true ->
  pdf_pages w pdf_path = Return (map Return texts) ->
  nth_error texts k = Some t ->
  strip (or_empty t) <> [] ->
  exists text,
    extract_pdf_text w pdf_path = Return text
    /\ occurs_in (page_section (Z.of_nat k + 1) (strip (or_empty t))) text.
Proof.
  intros He Hf Hp Hk Hne.
  assert (Hin : In (page_section (Z.of_nat k + 1) (strip (or_empty t)))
                   (sections_of texts)).
  { unfold sections_of. apply in_map_iff.
    exists (1 + Z.of_nat k, t).
    split; [cbn [fst snd]; unfold page_text; now rewrite Z.add_comm|].
    apply filter_In. split; [now apply enumerate_In|].
    simpl. now apply truthy_true. }
  rewrite (extract_pdf_text_run w pdf_path texts He Hf Hp).
  destruct (sections_of texts) as [|x xs] eqn:E; [easy|].
  eexists; split; [reflexivity|]. now apply join_occurs.
Qed.

Lemma extract_pdf_text_page_number_witness :
  exists text,
    extract_pdf_text (demo_world reply_always true) (lit "doc.pdf") = Return text
    /\ occurs_in (page_section (Z.of_nat 2 + 1) (strip (or_empty (Some (lit "World")))))
         text.
Proof.
  apply (@extract_pdf_text_page_number (demo_world reply_always true)
           (lit "doc.pdf") [Some (lit " Hello "); None; Some (lit "World")] 2);
    try reflexivity.
  discriminate.
Defined.

Lemma filter_all (A : Type) (f : A -> bool) (l : list A) :
  Forall (fun x => f x = true) l -> filter f l = l.
Proof.
  induction 1 as [|x l Hx _ IH]; simpl; [reflexivity|]. now rewrite Hx, IH.
Qed.

(** X10. When every page of a document with at least one page has text other
    than white space, the extracted text is one section per page, in page
    order, joined by blank lines: the section at position [k] (from 0) is the
    marker of page [k + 1] followed by the trimmed text of that page. *)
Theorem extract_pdf_text_all_pages (w : World) (pdf_path : str)
    (texts : list (option str)) :
  path_exists w pdf_path = true -> path_is_file w pdf_path = true ->
  pdf_pages w pdf_path = Return (map Return texts) ->
  texts <> [] ->
  Forall (fun t => strip (or_empty t) <> []) texts ->
  exists sections,
    extract_pdf_text w pdf_path = Return (join (nl ++ nl) sections)
    /\ length sections = length texts
    /\ forall k t,
         nth_error texts k = Some t ->
         nth_error sections k
         = Some (lit "--- Page " ++ str_of_int (Z.of_nat k + 1) ++ lit " ---"
                 ++ nl ++ strip (or_empty t)).
Proof.
  intros He Hf Hp Hne HF.
  assert (Hs : sections_of texts
               = map (fun it => page_section (fst it) (page_text (snd it)))
                     (enumerate texts 1)).
  { unfold sections_of. f_equal. apply filter_all.
    apply Forall_forall. intros [i t] Hin. simpl.
    apply truthy_true.
    assert (Ht : In t texts).
    { clear - Hin. revert Hin. generalize 1.
      induction texts as [|y ys IH]; intros z; simpl; [easy|].
      intros [H | H]; [left; congruence | right; eapply IH; exact H]. }
    rewrite Forall_forall in HF. now apply HF. }
  exists (sections_of texts). split; [|split].
  - rewrite (extract_pdf_text_run w pdf_path texts He Hf Hp).
    rewrite Hs. destruct texts; [congruence | reflexivity].
  - now rewrite Hs, length_map, enumerate_length.
  - intros k t Hk. rewrite Hs, nth_error_map, (enumerate_nth _ 1 _ Hk).
    cbn [option_map fst snd]. unfold page_section, page_text.
    now rewrite (Z.add_comm 1).
Qed.

Lemma extract_pdf_text_all_pages_witness :
  exists sections,
    extract_pdf_text
      (sample_world (map Return [Some (lit " one "); Some (lit "two")])
         true reply_always None (fun _ => false))
      (lit "doc.pdf")
    = Return (join (nl ++ nl) sections)
    /\ length sections = length [Some (lit " one "); Some (lit "two")]
    /\ forall k t,
         nth_error [Some (lit " one "); Some (lit "two")] k = Some t ->
         nth_error sections k
         = Some (lit "--- Page " ++ str_of_int (Z.of_nat k + 1) ++ lit " ---"
                 ++ nl ++ strip (or_empty t)).
Proof.
  apply (@extract_pdf_text_all_pages _ (lit "doc.pdf")
           [Some (lit " one "); Some (lit "two")]); try reflexivity.
  - discriminate.
  - repeat constructor; discriminate.
Defined.

(** ** The answer aggregator: failures, trace and shape of the answer *)

Section AggregatorRuns.
Variable w : World.
Variables model_name question : str.

Lemma collect_responses_app (a b responses : list str) (tr : list Event) :
  collect_responses w model_name question (a ++ b) responses tr
  = match collect_responses w model_name question a responses tr with
    | (Return rs, tr1) => collect_responses w model_name question b rs tr1
    | (Raise e, tr1) => (Raise e, tr1)
    end.
Proof.
  revert responses tr; induction a as [|c a IH]; intros responses tr.
  - reflexivity.
  - change ((c :: a) ++ b) with (c :: a ++ b).
    rewrite !collect_responses_step.
    destruct (generate_content w model_name tr (build_prompt c question));
      [apply IH | reflexivity].
Qed.

(** Whatever its outcome, the loop has only called the remote model, once
    for each chunk of a prefix of the chunks. *)
Lemma collect_responses_trace (chunks responses : list str)
    (tr tr' : list Event) (r : Result (list str)) :
  collect_responses w model_name question chunks responses tr = (r, tr') ->
  exists n, (n <= length chunks)%nat
            /\ tr' = tr ++ chunk_calls model_name question (firstn n chunks).
Proof.
  revert responses tr; induction chunks as [|c chunks IH]; intros responses tr H.
  - injection H as _ <-. exists 0%nat. split; [lia | now rewrite app_nil_r].
  - rewrite collect_responses_step in H.
    destruct (generate_content w model_name tr (build_prompt c question)).
    + apply IH in H as (n & Hn & ->). exists (S n).
      split; [simpl; lia|]. simpl. now rewrite <- app_assoc.
    + injection H as _ <-. exists 1%nat. split; [simpl; lia | reflexivity].
Qed.

(** The responses the loop keeps have no white space at their ends. *)
Lemma collect_responses_solid (chunks responses rs : list str)
    (tr tr' : list Event) :
  collect_responses w model_name question chunks responses tr = (Return rs, tr') ->
  Forall solid responses -> Forall solid rs.
Proof.
  revert responses tr; induction chunks as [|c chunks IH]; intros responses tr H HF.
  - now injection H as <- _.
  - rewrite collect_responses_step in H.
    destruct (generate_content w model_name tr (build_prompt c question))
      as [result|e]; [|discriminate].
    apply IH in H; [exact H|].
    destruct (truthy (strip (or_empty result))) eqn:E; [|exact HF].
    apply Forall_app. split; [exact HF|]. constructor; [|constructor].
    split; [now apply truthy_true | apply strip_headed].
Qed.

(** With a remote model that only ever gives blank text, the loop keeps
    nothing. *)
Lemma collect_responses_blank (chunks responses : list str) (tr : list Event) :
  (forall tr0 prompt, exists r,
      generate_content w model_name tr0 prompt = Return r
      /\ strip (or_empty r) = []) ->
  collect_responses w model_name question chunks responses tr
  = (Return responses, tr ++ chunk_calls model_name question chunks).
Proof.
  intros Hb. revert tr; induction chunks as [|c chunks IH]; intros tr.
  - simpl. unfold ret. now rewrite app_nil_r.
  - rewrite collect_responses_step.
    destruct (Hb tr (build_prompt c question)) as (r & -> & ->).
    simpl truthy. cbv iota. rewrite IH. simpl. now rewrite <- app_assoc.
Qed.
End AggregatorRuns.

(** For a positive size the chunker returns chunks that make up the text. *)
Lemma chunk_text_total (text : str) (size : Z) :
  0 < size ->
  exists chunks, chunk_text text size = Return chunks /\ concat chunks = text.
Proof.
  intros Hs. eexists; split; [apply chunk_text_pieces; exact Hs|].
  rewrite concat_pieces. apply firstn_all2.
  pose proof (chunk_count_covers text Hs) as Hc. unfold len in Hc.
  apply Nat2Z.inj_le. rewrite Nat2Z.inj_mul, Z2Nat.id; lia.
Qed.

(** X11. On an empty text, with the remote library and a credential, the
    aggregator raises the empty-response error without calling the remote
    model at all. *)
Theorem ask_gemini_empty_text (w : World) (env : Env)
    (question model_name key : str) (tr : list Event) :
  import_genai w = None ->
  getenv env (lit "GEMINI_API_KEY") = Some key -> key <> [] ->
  ask_gemini w env [] question model_name tr
  = (Raise (mkExc RuntimeError (lit "Gemini returned an empty response.")),
     tr ++ [Configure key]).
Proof.
  intros Hi Hk Hne.
  now rewrite (@ask_gemini_configured w model_name question env [] key []
                 tr Hi Hk Hne eq_refl).
Qed.

Lemma ask_gemini_empty_text_witness :
  ask_gemini (demo_world reply_always true) demo_env [] (lit "What?")
    (lit "gemini-1.5-flash") []
  = (Raise (mkExc RuntimeError (lit "Gemini returned an empty response.")),
     [] ++ [Configure (lit "secret")]).
Proof.
  apply (@ask_gemini_empty_text (demo_world reply_always true) demo_env);
    [reflexivity | reflexivity | discriminate].
Defined.

(** X12. When the remote model gives only blank text (nothing, or white
    space) to every call, the aggregator calls it once per chunk, makes no
    merge call, and raises the empty-response error. *)
Theorem ask_gemini_blank_replies (w : World) (env : Env)
    (pdf_text question model_name key : str) (chunks : list str)
    (tr : list Event) :
  import_genai w = None ->
  getenv env (lit "GEMINI_API_KEY") = Some key -> key <> [] ->
  chunk_text pdf_text MAX_CONTEXT_CHARS = Return chunks ->
  (forall tr0 prompt, exists r,
      generate_content w model_name tr0 prompt = Return r
      /\ strip (or_empty r) = []) ->
  ask_gemini w env pdf_text question model_name tr
  = (Raise (mkExc RuntimeError (lit "Gemini returned an empty response.")),
     (tr ++ [Configure key]) ++ chunk_calls model_name question chunks).
Proof.
  intros Hi Hk Hne Hc Hb.
  rewrite (ask_gemini_configured w model_name question env tr Hi Hk Hne Hc).
  now rewrite collect_responses_blank.
Qed.

Lemma ask_gemini_blank_replies_witness :
  ask_gemini (demo_world (fun _ _ => Return (Some (lit "  "))) true) demo_env
    (lit "some text") (lit "What?") (lit "gemini-1.5-flash") []
  = (Raise (mkExc RuntimeError (lit "Gemini returned an empty response.")),
     ([] ++ [Configure (lit "secret")])
     ++ chunk_calls (lit "gemini-1.5-flash") (lit "What?") [lit "some text"]).
Proof.
  apply (@ask_gemini_blank_replies
           (demo_world (fun _ _ => Return (Some (lit "  "))) true) demo_env
           (lit "some text") (lit "What?") (lit "gemini-1.5-flash")
           (lit "secret") [lit "some text"]).
  - reflexivity.
  - reflexivity.
  - discriminate.
  - reflexivity.
  - intros tr0 prompt. exists (Some (lit "  ")). split; reflexivity.
Defined.

(** A text that starts with one full chunk: the chunk, then the chunks of
    what follows. *)
Lemma chunk_text_cons (a b : str) (size : Z) (cs : list str) :
  0 < size -> len a = size ->
  chunk_text b size = Return cs ->
  chunk_text (a ++ b) size = Return (a :: cs).
Proof.
  intros Hs Ha Hb.
  rewrite chunk_text_pieces in Hb by exact Hs. injection Hb as <-.
  rewrite chunk_text_pieces by exact Hs.
  assert (Hm : length a = Z.to_nat size) by (unfold len in Ha; lia).
  assert (Hc : chunk_count (a ++ b) size = S (chunk_count b size)).
  { unfold chunk_count. rewrite !range_length_pos by exact Hs.
    rewrite len_app, Ha.
    assert (Hb0 : 0 <= len b) by (unfold len; lia).
    replace (0 <? size + len b) with true by (symmetry; apply Z.ltb_lt; lia).
    destruct (0 <? len b) eqn:E.
    - apply Z.ltb_lt in E.
      replace (size + len b - 1) with (len b - 1 + 1 * size) by lia.
      rewrite Z.div_add by lia.
      assert (0 <= (len b - 1) / size) by (apply Z.div_pos; lia).
      lia.
    - apply Z.ltb_ge in E. replace (len b) with 0 by lia.
      rewrite Z.add_0_r, Z.div_small by lia. reflexivity. }
  rewrite Hc. cbn [seq map]. f_equal. f_equal.
  - rewrite Nat.mul_0_l. cbn [skipn].
    rewrite firstn_app, Hm, Nat.sub_diag. cbn [firstn].
    rewrite app_nil_r. apply firstn_all2. lia.
  - rewrite <- seq_shift, map_map. apply map_ext. intros k.
    rewrite skipn_app, Hm.
    rewrite skipn_all2 by (simpl; lia). cbn [app].
    do 2 f_equal. simpl. lia.
Qed.

Lemma chunk_text_one_chunk (text : str) (size : Z) :
  0 < size -> text <> [] -> len text <= size ->
  chunk_text text size = Return [text].
Proof.
  intros Hs Hne Hle.
  rewrite chunk_text_pieces by exact Hs.
  rewrite chunk_count_short by assumption. simpl.
  rewrite firstn_all2; [reflexivity|].
  unfold len in Hle. lia.
Qed.

(** A text one character longer than two chunks makes three chunks. *)
Lemma chunk_text_two_more (x : char) (size : Z) :
  0 < size ->
  chunk_text (repeat x (Z.to_nat size) ++ repeat x (Z.to_nat size) ++ [x]) size
  = Return [repeat x (Z.to_nat size); repeat x (Z.to_nat size); [x]].
Proof.
  intros Hs.
  assert (Hr : len (repeat x (Z.to_nat size)) = size)
    by (unfold len; rewrite repeat_length; lia).
  do 2 (apply chunk_text_cons; [exact Hs | exact Hr |]).
  apply chunk_text_one_chunk; [exact Hs | discriminate | unfold len; simpl; lia].
Qed.

(** X13. With the remote library and a credential, when the call for a chunk
    raises, the aggregator raises that exception at once: the answers already
    collected are dropped, the chunks that follow are never sent, and there
    is no merge call. *)
Theorem ask_gemini_chunk_call_error (w : World) (env : Env)
    (pdf_text question model_name key chunk : str)
    (before after rs : list str) (tr tr1 : list Event) (e : Exc) :
  import_genai w = None ->
  getenv env (lit "GEMINI_API_KEY") = Some key -> key <> [] ->
  chunk_text pdf_text MAX_CONTEXT_CHARS = Return (before ++ chunk :: after) ->
  collect_responses w model_name question before [] (tr ++ [Configure key])
  = (Return rs, tr1) ->
  generate_content w model_name tr1 (build_prompt chunk question) = Raise e ->
  ask_gemini w env pdf_text question model_name tr
  = (Raise e, tr1 ++ [GenerateContent model_name (build_prompt chunk question)])
  /\ tr1 = (tr ++ [Configure key]) ++ chunk_calls model_name question before.
Proof.
  intros Hi Hk Hne Hc Hl He.
  rewrite (ask_gemini_configured w model_name question env tr Hi Hk Hne Hc).
  rewrite collect_responses_app, Hl, collect_responses_step, He.
  split; [reflexivity|].
  now apply collect_responses_returns in Hl as [-> _].
Qed.

(** The loop over one chunk, with a remote model that answers once. *)
Lemma collect_responses_once (model_name question key c1 : str) :
  collect_responses (demo_world reply_once true) model_name question
    [c1] [] ([] ++ [Configure key])
  = (Return [lit "part"],
     [Configure key] ++ chunk_calls model_name question [c1]).
Proof. reflexivity. Qed.

Lemma reply_once_fails (model_name question key c1 prompt : str) :
  generate_content (demo_world reply_once true) model_name
    ([Configure key] ++ chunk_calls model_name question [c1]) prompt
  = Raise (mkExc LibraryError (lit "quota")).
Proof. reflexivity. Qed.

(** Three chunks: the first is answered, the call for the second raises, the
    third is never sent. *)
Lemma ask_gemini_chunk_call_error_witness :
  ask_gemini (demo_world reply_once true) demo_env longer_text (lit "What?")
    (lit "gemini-1.5-flash") []
  = (Raise (mkExc LibraryError (lit "quota")),
     ([Configure (lit "secret")]
      ++ chunk_calls (lit "gemini-1.5-flash") (lit "What?")
           [repeat 97%N (Z.to_nat MAX_CONTEXT_CHARS)])
     ++ [GenerateContent (lit "gemini-1.5-flash")
           (build_prompt (repeat 97%N (Z.to_nat MAX_CONTEXT_CHARS))
              (lit "What?"))])
  /\ [Configure (lit "secret")]
     ++ chunk_calls (lit "gemini-1.5-flash") (lit "What?")
          [repeat 97%N (Z.to_nat MAX_CONTEXT_CHARS)]
     = ([] ++ [Configure (lit "secret")])
       ++ chunk_calls (lit "gemini-1.5-flash") (lit "What?")
            [repeat 97%N (Z.to_nat MAX_CONTEXT_CHARS)].
Proof.
  refine (@ask_gemini_chunk_call_error (demo_world reply_once true) demo_env
            longer_text (lit "What?") (lit "gemini-1.5-flash") (lit "secret")
            (repeat 97%N (Z.to_nat MAX_CONTEXT_CHARS))
            [repeat 97%N (Z.to_nat MAX_CONTEXT_CHARS)] [[97%N]]
            [lit "part"] [] _ _
            eq_refl eq_refl _ _ _ _).
  - discriminate.
  - apply (@chunk_text_two_more 97%N MAX_CONTEXT_CHARS). reflexivity.
  - apply collect_responses_once.
  - apply reply_once_fails.
Defined.

(** X14. With the remote library and a credential, when more than one
    answer was collected and the merge call raises,
    the aggregator raises that exception: the joined answers are the fallback
    for an empty merge result only, not for a failed merge call. *)
Theorem ask_gemini_merge_call_error (w : World) (env : Env)
    (pdf_text question model_name key : str) (chunks rs : list str)
    (tr tr1 : list Event) (e : Exc) :
  import_genai w = None ->
  getenv env (lit "GEMINI_API_KEY") = Some key -> key <> [] ->
  chunk_text pdf_text MAX_CONTEXT_CHARS = Return chunks ->
  collect_responses w model_name question chunks [] (tr ++ [Configure key])
  = (Return rs, tr1) ->
  (1 < length rs)%nat ->
  generate_content w model_name tr1 (summary_prompt rs) = Raise e ->
  ask_gemini w env pdf_text question model_name tr
  = (Raise e, tr1 ++ [GenerateContent model_name (summary_prompt rs)]).
Proof.
  intros Hi Hk Hne Hc Hl Hlen Hm.
  rewrite (ask_gemini_configured w model_name question env tr Hi Hk Hne Hc), Hl.
  destruct rs as [|r [|r' rs]]; simpl in Hlen; try lia.
  now rewrite Hm.
Qed.

Lemma collect_responses_then_fail (model_name question key c1 c2 : str) :
  collect_responses
    (demo_world reply_then_fail true)
    model_name question [c1; c2] [] ([] ++ [Configure key])
  = (Return [lit "part"; lit "part"],
     [Configure key] ++ chunk_calls model_name question [c1; c2]).
Proof. reflexivity. Qed.

Lemma reply_then_fail_fails (model_name question key c1 c2 prompt : str) :
  generate_content
    (demo_world reply_then_fail true)
    model_name ([Configure key] ++ chunk_calls model_name question [c1; c2])
    prompt
  = Raise (mkExc LibraryError (lit "quota")).
Proof. reflexivity. Qed.

Lemma ask_gemini_merge_call_error_witness :
  ask_gemini
    (demo_world reply_then_fail true)
    demo_env long_text (lit "What?") (lit "gemini-1.5-flash") []
  = (Raise (mkExc LibraryError (lit "quota")),
     ([Configure (lit "secret")]
      ++ chunk_calls (lit "gemini-1.5-flash") (lit "What?")
           [repeat 97%N (Z.to_nat MAX_CONTEXT_CHARS); [97%N]])
     ++ [GenerateContent (lit "gemini-1.5-flash")
           (summary_prompt [lit "part"; lit "part"])]).
Proof.
  refine (@ask_gemini_merge_call_error (demo_world reply_then_fail true)
            demo_env long_text
            (lit "What?") (lit "gemini-1.5-flash") (lit "secret")
            [repeat 97%N (Z.to_nat MAX_CONTEXT_CHARS); [97%N]]
            [lit "part"; lit "part"] [] _ _
            eq_refl eq_refl _ _ _ _ _).
  - discriminate.
  - apply chunk_text_one_more. reflexivity.
  - apply collect_responses_then_fail.
  - simpl. lia.
  - apply reply_then_fail_fails.
Defined.

(** The two ways a call of the aggregator can go: it stops without any
    effect, on the import of the remote library or on the missing credential,
    or it configures the client and runs the loop over the chunks of the
    text. *)
Lemma ask_gemini_cases (w : World) (env : Env)
    (pdf_text question model_name : str) (tr : list Event) :
  (exists e, ask_gemini w env pdf_text question model_name tr = (Raise e, tr))
  \/ exists key chunks,
       getenv env (lit "GEMINI_API_KEY") = Some key /\ key <> []
       /\ chunk_text pdf_text MAX_CONTEXT_CHARS = Return chunks
       /\ concat chunks = pdf_text
       /\ ask_gemini w env pdf_text question model_name tr
          = match collect_responses w model_name question chunks []
                    (tr ++ [Configure key]) with
            | (Raise e, tr1) => (Raise e, tr1)
            | (Return [], tr1) =>
                (Raise (mkExc RuntimeError
                          (lit "Gemini returned an empty response.")), tr1)
            | (Return [r], tr1) => (Return r, tr1)
            | (Return rs, tr1) =>
                (match generate_content w model_name tr1 (summary_prompt rs) with
                 | Raise e => Raise e
                 | Return final =>
                     Return (str_or (strip (or_empty final))
                               (join (nl ++ nl) rs))
                 end,
                 tr1 ++ [GenerateContent model_name (summary_prompt rs)])
            end.
Proof.
  destruct (import_genai w) as [ei|] eqn:Hi.
  { left. exists ei. now apply ask_gemini_import_error. }
  destruct (truthy (or_empty (getenv env (lit "GEMINI_API_KEY")))) eqn:Ht.
  2:{ left. eexists. now apply ask_gemini_no_key. }
  right.
  destruct (getenv env (lit "GEMINI_API_KEY")) as [[|c key]|] eqn:Hk;
    try discriminate.
  destruct (@chunk_text_total pdf_text MAX_CONTEXT_CHARS eq_refl)
    as (chunks & Hc & Hcat).
  exists (c :: key), chunks.
  split; [reflexivity|]. split; [discriminate|]. split; [exact Hc|].
  split; [exact Hcat|].
  apply ask_gemini_configured; [exact Hi | exact Hk | discriminate | exact Hc].
Qed.

(** An answer returned by the aggregator has no white space at its ends. *)
Lemma ask_gemini_solid (w : World) (env : Env)
    (pdf_text question model_name : str) (tr tr1 : list Event) (a : str) :
  ask_gemini w env pdf_text question model_name tr = (Return a, tr1) ->
  solid a.
Proof.
  intros H.
  destruct (ask_gemini_cases w env pdf_text question model_name tr)
    as [[e0 E] | (key & chunks & _ & _ & _ & _ & E)]; rewrite E in H;
    [discriminate|].
  destruct (collect_responses w model_name question chunks []
              (tr ++ [Configure key])) as [[rs|e] tr2] eqn:Hl;
    [|discriminate].
  apply collect_responses_solid in Hl; [|constructor].
  destruct rs as [|r [|r' rs]]; [discriminate | |].
  - injection H as <- _. now inversion Hl.
  - destruct (generate_content w model_name tr2 (summary_prompt (r :: r' :: rs)))
      as [final|e]; [|discriminate].
    injection H as <- _. unfold str_or.
    destruct (truthy (strip (or_empty final))) eqn:T.
    + split; [now apply truthy_true | apply strip_headed].
    + now apply (@join_solid (nl ++ nl) (r :: r' :: rs)).
Qed.

(** X15. An answer returned by the aggregator carries no white space at its
    start or its end: trimming it changes nothing. *)
Theorem ask_gemini_trimmed (w : World) (env : Env)
    (pdf_text question model_name : str) (tr tr1 : list Event) (a : str) :
  ask_gemini w env pdf_text question model_name tr = (Return a, tr1) ->
  strip a = a.
Proof.
  intros H. apply ask_gemini_solid in H as (_ & H1 & H2).
  now apply strip_fixed.
Qed.

Lemma ask_gemini_trimmed_witness :
  strip (lit "Hello, World.") = lit "Hello, World.".
Proof.
  apply (@ask_gemini_trimmed (demo_world reply_always true) demo_env
           (lit "some text") (lit "What?") (lit "gemini-1.5-flash") []
           [Configure (lit "secret");
            GenerateContent (lit "gemini-1.5-flash")
              (build_prompt (lit "some text") (lit "What?"))]).
  reflexivity.
Defined.

Lemma chunk_calls_events (model_name question : str) (chunks : list str) :
  Forall (aggregator_event model_name) (chunk_calls model_name question chunks)
  /\ length (filter is_generate (chunk_calls model_name question chunks))
     = length chunks.
Proof.
  induction chunks as [|c chunks [IH1 IH2]]; simpl; [now split|].
  split; [constructor; [reflexivity | exact IH1] | now rewrite IH2].
Qed.

(** X16. Whatever its outcome, the aggregator only adds to the trace: the
    events it adds are the configuration of the client and calls to the model
    of the given name, and it calls the model at most once per chunk and once
    more. It prints nothing and writes no file. *)
Theorem ask_gemini_trace (w : World) (env : Env)
    (pdf_text question model_name : str) (tr tr1 : list Event)
    (r : Result str) :
  ask_gemini w env pdf_text question model_name tr = (r, tr1) ->
  exists chunks added,
    chunk_text pdf_text MAX_CONTEXT_CHARS = Return chunks
    /\ tr1 = tr ++ added
    /\ Forall (aggregator_event model_name) added
    /\ (length (filter is_generate added) <= length chunks + 1)%nat.
Proof.
  intros H.
  destruct (ask_gemini_cases w env pdf_text question model_name tr)
    as [[e0 E] | (key & chunks & _ & _ & Hc & _ & E)]; rewrite E in H.
  - injection H as _ <-.
    destruct (@chunk_text_total pdf_text MAX_CONTEXT_CHARS eq_refl)
      as (chunks & Hc & _).
    exists chunks, []. rewrite app_nil_r. repeat split; [exact Hc | constructor | simpl; lia].
  - exists chunks.
    destruct (collect_responses w model_name question chunks []
                (tr ++ [Configure key])) as [res tr2] eqn:Hl.
    apply collect_responses_trace in Hl as (n & Hn & ->).
    destruct (chunk_calls_events model_name question (firstn n chunks))
      as [HF HL].
    rewrite length_firstn in HL.
    assert (Hbase : Forall (aggregator_event model_name)
                      (Configure key
                       :: chunk_calls model_name question (firstn n chunks)))
      by (constructor; [exact I | exact HF]).
    assert (Hstop : forall r0,
               (r0, (tr ++ [Configure key])
                    ++ chunk_calls model_name question (firstn n chunks))
               = (r, tr1) ->
               exists added,
                 chunk_text pdf_text MAX_CONTEXT_CHARS = Return chunks
                 /\ tr1 = tr ++ added
                 /\ Forall (aggregator_event model_name) added
                 /\ (length (filter is_generate added) <= length chunks + 1)%nat).
    { intros r0 H0. injection H0 as _ <-.
      exists (Configure key
              :: chunk_calls model_name question (firstn n chunks)).
      split; [exact Hc|]. split; [now rewrite <- app_assoc|].
      split; [exact Hbase|]. simpl. rewrite HL. lia. }
    destruct res as [[|r1 [|r2 rs]]|e]; try (now apply (Hstop _ H)).
    injection H as _ <-.
    exists ((Configure key
             :: chunk_calls model_name question (firstn n chunks))
            ++ [GenerateContent model_name (summary_prompt (r1 :: r2 :: rs))]).
    split; [exact Hc|]. split; [now rewrite <- !app_assoc|]. split.
    + apply Forall_app. split; [exact Hbase | now repeat constructor].
    + cbn [app filter is_generate length].
      rewrite filter_app, length_app, HL. simpl. lia.
Qed.

Lemma ask_gemini_trace_witness :
  exists chunks added,
    chunk_text (lit "some text") MAX_CONTEXT_CHARS = Return chunks
    /\ [Configure (lit "secret");
        GenerateContent (lit "gemini-1.5-flash")
          (build_prompt (lit "some text") (lit "What?"))]
       = [] ++ added
    /\ Forall (aggregator_event (lit "gemini-1.5-flash")) added
    /\ (length (filter is_generate added) <= length chunks + 1)%nat.
Proof.
  apply (@ask_gemini_trace (demo_world reply_always true) demo_env
           (lit "some text") (lit "What?") (lit "gemini-1.5-flash") []
           _ (Return (lit "Hello, World."))).
  reflexivity.
Defined.

(** X17. When the aggregator returns an answer, the whole text has been sent
    to the remote model: the contexts of the calls for the chunks, in the
    order of the calls, make up the text, each call carrying the prompt
    built for one chunk; after them comes at most one call, the merge call. *)
Theorem ask_gemini_sends_whole_text (w : World) (env : Env)
    (pdf_text question model_name : str) (tr tr1 : list Event) (a : str) :
  ask_gemini w env pdf_text question model_name tr = (Return a, tr1) ->
  exists key chunks tail,
    getenv env (lit "GEMINI_API_KEY") = Some key
    /\ concat chunks = pdf_text
    /\ tr1 = tr ++ [Configure key]
             ++ chunk_calls model_name question chunks ++ tail
    /\ (tail = []
        \/ exists rs, (1 < length rs)%nat
                      /\ tail = [GenerateContent model_name (summary_prompt rs)]).
Proof.
  intros H.
  destruct (ask_gemini_cases w env pdf_text question model_name tr)
    as [[e0 E] | (key & chunks & Hk & _ & _ & Hcat & E)]; rewrite E in H;
    [discriminate|].
  exists key, chunks.
  destruct (collect_responses w model_name question chunks []
              (tr ++ [Configure key])) as [[rs|e] tr2] eqn:Hl;
    [|discriminate].
  apply collect_responses_returns in Hl as (-> & _).
  destruct rs as [|r [|r' rs]]; [discriminate | |].
  - injection H as _ <-. exists [].
    rewrite app_nil_r, <- app_assoc. now repeat split; try left.
  - destruct (generate_content w model_name _ (summary_prompt (r :: r' :: rs)));
      [|discriminate].
    injection H as _ <-.
    exists [GenerateContent model_name (summary_prompt (r :: r' :: rs))].
    rewrite <- !app_assoc. repeat split; try assumption.
    right. exists (r :: r' :: rs). split; [simpl; lia | reflexivity].
Qed.

Lemma ask_gemini_sends_whole_text_witness :
  exists key chunks tail,
    getenv demo_env (lit "GEMINI_API_KEY") = Some key
    /\ concat chunks = lit "some text"
    /\ [Configure (lit "secret");
        GenerateContent (lit "gemini-1.5-flash")
          (build_prompt (lit "some text") (lit "What?"))]
       = [] ++ [Configure key]
         ++ chunk_calls (lit "gemini-1.5-flash") (lit "What?") chunks ++ tail
    /\ (tail = []
        \/ exists rs, (1 < length rs)%nat
                      /\ tail = [GenerateContent (lit "gemini-1.5-flash")
                                   (summary_prompt rs)]).
Proof.
  apply (@ask_gemini_sends_whole_text (demo_world reply_always true) demo_env
           (lit "some text") (lit "What?") (lit "gemini-1.5-flash") []
           _ (lit "Hello, World.")).
  reflexivity.
Defined.

(** ** The command-line driver: statuses, output and the environment file *)

Lemma try_body_unfold (w : World) (env : Env) (args : Args) (tr : list Event) :
  try_body w env args tr
  = match extract_pdf_text w (path_str w (arg_pdf args)) with
    | Raise e => (Raise e, tr)
    | Return pdf_text =>
        ask_gemini w (load_env_file w env (arg_env_file args)) pdf_text
          (arg_question args) (arg_model args) tr
    end.
Proof.
  unfold try_body, bind, lift.
  now destruct (extract_pdf_text w (path_str w (arg_pdf args))).
Qed.

(** Once the question and the answer are printed, what is left of [main] is
    the answer file. *)
Lemma after_try_reported (w : World) (args : Args) (answer : str)
    (tr1 : list Event) :
  printable w (report args answer) ->
  after_try w args answer tr1
  = save_answer w args answer (tr1 ++ report args answer).
Proof.
  unfold printable, report. intros Hp.
  pose proof (Forall_inv Hp) as H1.
  pose proof (Forall_inv (Forall_inv_tail Hp)) as H2.
  pose proof (Forall_inv (Forall_inv_tail (Forall_inv_tail Hp))) as H3.
  pose proof (Forall_inv (Forall_inv_tail (Forall_inv_tail (Forall_inv_tail Hp))))
    as H4.
  cbv beta in H1, H2, H3, H4.
  unfold after_try, print, output, bind. rewrite H1, H2, H3, H4.
  unfold emit. cbv beta iota. fold (save_answer w args answer).
  now rewrite <- !app_assoc.
Qed.

(** [main] does not get past a print that raises. *)
Lemma after_try_returns (w : World) (args : Args) (answer : str)
    (tr1 tr' : list Event) (status : Z) :
  after_try w args answer tr1 = (Return status, tr') ->
  printable w (report args answer).
Proof.
  unfold after_try, print, output, bind, printable, report. intros H.
  destruct (print_raises w (Stdout (nl ++ lit "=== Question ==="))) eqn:H1;
    [discriminate|].
  destruct (print_raises w (Stdout (arg_question args))) eqn:H2;
    [discriminate|].
  destruct (print_raises w (Stdout (nl ++ lit "=== Answer ==="))) eqn:H3;
    [discriminate|].
  destruct (print_raises w (Stdout answer)) eqn:H4; [discriminate|].
  now repeat constructor.
Qed.

Lemma save_answer_cases (w : World) (args : Args) (answer : str)
    (tr2 : list Event) :
  save_answer w args answer tr2
  = match arg_save_answer args with
    | Some (c :: out) =>
        match write_text w (path_str w (c :: out)) (answer ++ nl) with
        | Some e => (Raise e, tr2)
        | None =>
            match print_raises w
                    (Stdout (nl ++ lit "Saved answer to: "
                             ++ path_str w (c :: out))) with
            | Some e =>
                (Raise e,
                 tr2 ++ [WriteText (path_str w (c :: out)) (answer ++ nl)])
            | None =>
                (Return 0,
                 tr2 ++ [WriteText (path_str w (c :: out)) (answer ++ nl);
                         Stdout (nl ++ lit "Saved answer to: "
                                 ++ path_str w (c :: out))])
            end
        end
    | _ => (Return 0, tr2)
    end.
Proof.
  unfold save_answer.
  destruct (arg_save_answer args) as [[|c out]|]; cbn [or_empty str_or truthy];
    try reflexivity.
  destruct (write_text w (path_str w (c :: out)) (answer ++ nl));
    [reflexivity|].
  unfold print, output, bind, emit.
  destruct (print_raises w _); [reflexivity|].
  unfold ret. now rewrite <- app_assoc.
Qed.

(** X18. When extraction fails, [main] prints the error line, if it can be
    printed, and returns status 1 without any other effect: the client is not
    configured and the remote model is not called, with or without a
    credential. *)
Theorem main_extraction_failure (w : World) (env : Env) (args : Args)
    (tr : list Event) (e : Exc) :
  extract_pdf_text w (path_str w (arg_pdf args)) = Raise e ->
  print_raises w (Stderr (lit "Error: " ++ exc_msg e)) = None ->
  main w env args tr = (Return 1, tr ++ [Stderr (lit "Error: " ++ exc_msg e)]).
Proof.
  intros H Hp. now rewrite main_unfold, try_body_unfold, H, Hp.
Qed.

Lemma main_extraction_failure_witness :
  main (demo_world reply_always true) [] (demo_args (lit "./missing.pdf") None) []
  = (Return 1,
     [] ++ [Stderr (lit "Error: "
                    ++ exc_msg (mkExc FileNotFoundError
                                  (lit "PDF file not found: "
                                   ++ lit "missing.pdf")))]).
Proof.
  apply (@main_extraction_failure (demo_world reply_always true) []
           (demo_args (lit "./missing.pdf") None) []);
    reflexivity.
Defined.

(** X19. [main] returns no status other than 0 and 1. It returns 1 exactly
    after a failure of extraction or aggregation, having added the error line
    and nothing else. It returns 0 after printing the question and an answer
    that is not empty and carries no white space at its ends; after them it
    has either done nothing more, or written that answer followed by a
    newline to the requested path and reported the path, both with the path
    as [pathlib] writes it. *)
Theorem main_status (w : World) (env : Env) (args : Args)
    (tr tr' : list Event) (status : Z) :
  main w env args tr = (Return status, tr') ->
  (status = 1
   /\ exists e tr1,
        try_body w env args tr = (Raise e, tr1)
        /\ tr' = tr1 ++ [Stderr (lit "Error: " ++ exc_msg e)])
  \/ (status = 0
      /\ exists answer tr1,
           try_body w env args tr = (Return answer, tr1)
           /\ answer <> [] /\ strip answer = answer
           /\ (tr' = tr1 ++ report args answer
               \/ exists out,
                    arg_save_answer args = Some out /\ out <> []
                    /\ tr' = tr1 ++ report args answer
                             ++ [WriteText (path_str w out) (answer ++ nl);
                                 Stdout (nl ++ lit "Saved answer to: "
                                         ++ path_str w out)])).
Proof.
  intros H. rewrite main_unfold in H.
  destruct (try_body w env args tr) as [[answer|e] tr1] eqn:Hb.
  - right.
    assert (Hs : solid answer).
    { rewrite try_body_unfold in Hb.
      destruct (extract_pdf_text w (path_str w (arg_pdf args)));
        [|discriminate].
      now apply ask_gemini_solid in Hb. }
    destruct Hs as (S0 & S1 & S2).
    assert (Hfix : strip answer = answer) by now apply strip_fixed.
    pose proof (after_try_returns _ _ _ _ H) as Hp.
    rewrite (after_try_reported tr1 Hp), save_answer_cases in H.
    destruct (arg_save_answer args) as [[|c out]|] eqn:Hsave.
    + injection H as <- <-. split; [reflexivity|].
      exists answer, tr1. repeat split; trivial. now left.
    + destruct (write_text w (path_str w (c :: out)) (answer ++ nl));
        [discriminate|].
      destruct (print_raises w _); [discriminate|].
      injection H as <- <-. split; [reflexivity|].
      exists answer, tr1. repeat split; trivial.
      right. exists (c :: out).
      split; [reflexivity|]. split; [discriminate|].
      now rewrite <- app_assoc.
    + injection H as <- <-. split; [reflexivity|].
      exists answer, tr1. repeat split; trivial. now left.
  - left. destruct (print_raises w _); [discriminate|].
    injection H as <- <-. split; [reflexivity|]. now exists e, tr1.
Qed.

Lemma main_status_witness :
  (0 = 1
   /\ exists e tr1,
        try_body (demo_world reply_always true) demo_env
          (demo_args (lit "doc.pdf") (Some (lit "./out.txt"))) []
        = (Raise e, tr1)
        /\ [Configure (lit "secret");
            GenerateContent (lit "gemini-1.5-flash")
              (build_prompt
                 (lit "--- Page 1 ---" ++ nl ++ lit "Hello" ++ nl ++ nl
                  ++ lit "--- Page 3 ---" ++ nl ++ lit "World")
                 (lit "What?"));
            Stdout (nl ++ lit "=== Question ==="); Stdout (lit "What?");
            Stdout (nl ++ lit "=== Answer ==="); Stdout (lit "Hello, World.");
            WriteText (lit "out.txt") (lit "Hello, World." ++ nl);
            Stdout (nl ++ lit "Saved answer to: out.txt")]
           = tr1 ++ [Stderr (lit "Error: " ++ exc_msg e)])
  \/ (0 = 0
      /\ exists answer tr1,
           try_body (demo_world reply_always true) demo_env
             (demo_args (lit "doc.pdf") (Some (lit "./out.txt"))) []
           = (Return answer, tr1)
           /\ answer <> [] /\ strip answer = answer
           /\ ([Configure (lit "secret");
                GenerateContent (lit "gemini-1.5-flash")
                  (build_prompt
                     (lit "--- Page 1 ---" ++ nl ++ lit "Hello" ++ nl ++ nl
                      ++ lit "--- Page 3 ---" ++ nl ++ lit "World")
                     (lit "What?"));
                Stdout (nl ++ lit "=== Question ==="); Stdout (lit "What?");
                Stdout (nl ++ lit "=== Answer ===");
                Stdout (lit "Hello, World.");
                WriteText (lit "out.txt") (lit "Hello, World." ++ nl);
                Stdout (nl ++ lit "Saved answer to: out.txt")]
               = tr1 ++ report
                          (demo_args (lit "doc.pdf") (Some (lit "./out.txt")))
                          answer
               \/ exists out,
                    arg_save_answer
                      (demo_args (lit "doc.pdf") (Some (lit "./out.txt")))
                    = Some out
                    /\ out <> []
                    /\ [Configure (lit "secret");
                        GenerateContent (lit "gemini-1.5-flash")
                          (build_prompt
                             (lit "--- Page 1 ---" ++ nl ++ lit "Hello" ++ nl
                              ++ nl ++ lit "--- Page 3 ---" ++ nl
                              ++ lit "World")
                             (lit "What?"));
                        Stdout (nl ++ lit "=== Question ===");
                        Stdout (lit "What?");
                        Stdout (nl ++ lit "=== Answer ===");
                        Stdout (lit "Hello, World.");
                        WriteText (lit "out.txt") (lit "Hello, World." ++ nl);
                        Stdout (nl ++ lit "Saved answer to: out.txt")]
                       = tr1 ++ report
                                  (demo_args (lit "doc.pdf")
                                     (Some (lit "./out.txt")))
                                  answer
                         ++ [WriteText
                               (path_str (demo_world reply_always true) out)
                               (answer ++ nl);
                             Stdout (nl ++ lit "Saved answer to: "
                                     ++ path_str (demo_world reply_always true)
                                          out)])).
Proof.
  apply (@main_status (demo_world reply_always true) demo_env
           (demo_args (lit "doc.pdf") (Some (lit "./out.txt"))) []).
  reflexivity.
Defined.

(** X20. An empty answer path is no answer path: [main] behaves with it as
    it does without one, and writes nothing. *)
Theorem main_empty_save_path (w : World) (env : Env) (args : Args)
    (tr : list Event) :
  main w env (with_save_answer args (Some [])) tr
  = main w env (with_save_answer args None) tr.
Proof.
  rewrite !main_unfold.
  change (try_body w env (with_save_answer args (Some [])) tr)
    with (try_body w env (with_save_answer args None) tr).
  destruct (try_body w env (with_save_answer args None) tr) as [[answer|e] tr1];
    reflexivity.
Qed.

(** X21. When the question and the answer can be printed and the answer file
    cannot be written, the exception of the write leaves [main]: the question
    and the answer have been printed already, no file is recorded as written,
    and neither the saved-location line nor an error line is printed. *)
Theorem main_write_failure (w : World) (env : Env) (args : Args)
    (tr tr1 : list Event) (answer out : str) (e : Exc) :
  try_body w env args tr = (Return answer, tr1) ->
  printable w (report args answer) ->
  arg_save_answer args = Some out -> out <> [] ->
  write_text w (path_str w out) (answer ++ nl) = Some e ->
  main w env args tr = (Raise e, tr1 ++ report args answer).
Proof.
  intros Hb Hp Hs Hne Hw.
  rewrite main_unfold, Hb, (after_try_reported tr1 Hp), save_answer_cases, Hs.
  destruct out as [|c out]; [congruence|]. now rewrite Hw.
Qed.

Lemma main_write_failure_witness :
  main (demo_world reply_always false) demo_env
    (demo_args (lit "doc.pdf") (Some (lit "out.txt"))) []
  = (Raise (mkExc LibraryError (lit "Permission denied")),
     [Configure (lit "secret");
      GenerateContent (lit "gemini-1.5-flash")
        (build_prompt
           (lit "--- Page 1 ---" ++ nl ++ lit "Hello" ++ nl ++ nl
            ++ lit "--- Page 3 ---" ++ nl ++ lit "World")
           (lit "What?"))]
     ++ report (demo_args (lit "doc.pdf") (Some (lit "out.txt")))
          (lit "Hello, World.")).
Proof.
  apply (@main_write_failure (demo_world reply_always false) demo_env
           (demo_args (lit "doc.pdf") (Some (lit "out.txt"))) [] _
           (lit "Hello, World.") (lit "out.txt")).
  - reflexivity.
  - repeat constructor.
  - reflexivity.
  - discriminate.
  - reflexivity.
Defined.

(** X22. Without the [dotenv] module the environment file is not read: when
    the remote library is installed and the process environment has no
    credential, a run whose extraction succeeds ends with the
    missing-credential error line, if it can be printed, and status 1, and
    the remote model is never called. *)
Theorem main_no_dotenv_no_credential (w : World) (env : Env) (args : Args)
    (tr : list Event) (pdf_text : str) :
  load_dotenv w = None ->
  import_genai w = None ->
  getenv env (lit "GEMINI_API_KEY") = None ->
  extract_pdf_text w (path_str w (arg_pdf args)) = Return pdf_text ->
  print_raises w
    (Stderr (lit "Error: GEMINI_API_KEY is not set. Configure it in env or .env."))
  = None ->
  main w env args tr
  = (Return 1,
     tr ++ [Stderr (lit "Error: GEMINI_API_KEY is not set. Configure it in env or .env.")]).
Proof.
  intros Hd Hi Hk He Hp. rewrite main_unfold, try_body_unfold, He.
  unfold load_env_file. rewrite Hd.
  rewrite ask_gemini_no_key by (try exact Hi; now rewrite Hk).
  cbn [exc_msg].
  change (lit "Error: " ++ lit "GEMINI_API_KEY is not set. Configure it in env or .env.")
    with (lit "Error: GEMINI_API_KEY is not set. Configure it in env or .env.").
  now rewrite Hp.
Qed.

Lemma main_no_dotenv_no_credential_witness :
  main (demo_world reply_always true) [] (demo_args (lit "doc.pdf") None) []
  = (Return 1,
     [] ++ [Stderr (lit "Error: GEMINI_API_KEY is not set. Configure it in env or .env.")]).
Proof.
  apply (@main_no_dotenv_no_credential (demo_world reply_always true) []
           (demo_args (lit "doc.pdf") None) []
           (lit "--- Page 1 ---" ++ nl ++ lit "Hello" ++ nl ++ nl
            ++ lit "--- Page 3 ---" ++ nl ++ lit "World"));
    reflexivity.
Defined.

(** With the remote library and a credential, the first thing the aggregator
    does is configure the client with the credential. *)
Lemma ask_gemini_configures (w : World) (env : Env)
    (pdf_text question model_name key : str) (tr : list Event) :
  import_genai w = None ->
  getenv env (lit "GEMINI_API_KEY") = Some key -> key <> [] ->
  exists rest,
    snd (ask_gemini w env pdf_text question model_name tr)
    = tr ++ Configure key :: rest.
Proof.
  intros Hi Hk Hne.
  destruct (@chunk_text_total pdf_text MAX_CONTEXT_CHARS eq_refl)
    as (chunks & Hc & _).
  rewrite (ask_gemini_configured w model_name question env tr Hi Hk Hne Hc).
  destruct (collect_responses w model_name question chunks []
              (tr ++ [Configure key])) as [res tr2] eqn:Hl.
  apply collect_responses_trace in Hl as (n & _ & ->).
  rewrite <- app_assoc.
  destruct res as [[|r1 [|r2 rs]]|e]; simpl snd;
    try (now eexists).
  rewrite <- app_assoc. now eexists.
Qed.

Lemma only_appends_ret (A : Type) (a : A) : only_appends (ret a).
Proof. intros tr. exists []. simpl. now rewrite app_nil_r. Qed.

Lemma only_appends_raise (A : Type) (e : Exc) : only_appends (@raise A e).
Proof. intros tr. exists []. simpl. now rewrite app_nil_r. Qed.

Lemma only_appends_emit (ev : Event) : only_appends (emit ev).
Proof. intros tr. now exists [ev]. Qed.

Lemma only_appends_output (w : World) (ev : Event) : only_appends (output w ev).
Proof.
  unfold output. destruct (print_raises w ev);
    [apply only_appends_raise | apply only_appends_emit].
Qed.

Lemma only_appends_bind (A B : Type) (m : M A) (k : A -> M B) :
  only_appends m -> (forall a, only_appends (k a)) -> only_appends (bind m k).
Proof.
  intros Hm Hk tr. unfold bind. destruct (Hm tr) as [more1 E1].
  destruct (m tr) as [[a|e] tr1]; simpl in E1; subst tr1.
  - destruct (Hk a (tr ++ more1)) as [more2 E2].
    exists (more1 ++ more2). now rewrite E2, app_assoc.
  - now exists more1.
Qed.

Lemma after_try_only_appends (w : World) (args : Args) (answer : str) :
  only_appends (after_try w args answer).
Proof.
  unfold after_try, print.
  do 4 (apply only_appends_bind; [apply only_appends_output | intros _]).
  destruct (truthy (or_empty (arg_save_answer args)));
    [|apply only_appends_ret].
  cbv zeta. destruct (write_text w _ _); [apply only_appends_raise|].
  apply only_appends_bind; [apply only_appends_emit | intros _].
  apply only_appends_bind; [apply only_appends_output | intros _].
  apply only_appends_ret.
Qed.

Lemma main_trace_extends (w : World) (env : Env) (args : Args)
    (tr : list Event) :
  exists more,
    snd (main w env args tr) = snd (try_body w env args tr) ++ more.
Proof.
  rewrite main_unfold.
  destruct (try_body w env args tr) as [[answer|e] tr1]; simpl snd.
  - apply after_try_only_appends.
  - destruct (print_raises w _); simpl snd;
      [exists []; now rewrite app_nil_r | now eexists].
Qed.

(** X23. The credential is read after the environment file has been loaded:
    when [dotenv] and the remote library are available and the environment
    the loader leaves holds a credential, a run whose extraction succeeds
    starts by configuring the client with that credential. *)
Theorem main_credential_from_env_file (w : World) (env : Env) (args : Args)
    (tr : list Event) (load : str -> Env -> Env) (pdf_text key : str) :
  load_dotenv w = Some load ->
  import_genai w = None ->
  getenv (load (arg_env_file args) env) (lit "GEMINI_API_KEY") = Some key ->
  key <> [] ->
  extract_pdf_text w (path_str w (arg_pdf args)) = Return pdf_text ->
  exists rest, snd (main w env args tr) = tr ++ Configure key :: rest.
Proof.
  intros Hd Hi Hk Hne He.
  destruct (main_trace_extends w env args tr) as [more ->].
  rewrite try_body_unfold, He. unfold load_env_file. rewrite Hd.
  destruct (@ask_gemini_configures w (load (arg_env_file args) env) pdf_text
              (arg_question args) (arg_model args) key tr Hi Hk Hne)
    as [rest ->].
  exists (rest ++ more). now rewrite <- app_assoc.
Qed.

Lemma main_credential_from_env_file_witness :
  exists rest,
    snd (main
           (sample_world [Return (Some (lit "Hello"))] true reply_always
              (Some (fun _ _ => demo_env)) (fun _ => false))
           [] (demo_args (lit "doc.pdf") None) [])
    = [] ++ Configure (lit "secret") :: rest.
Proof.
  apply (@main_credential_from_env_file
           (sample_world [Return (Some (lit "Hello"))] true reply_always
              (Some (fun _ _ => demo_env)) (fun _ => false))
           [] (demo_args (lit "doc.pdf") None) [] (fun _ _ => demo_env)
           (lit "--- Page 1 ---" ++ nl ++ lit "Hello") (lit "secret")).
  - reflexivity.
  - reflexivity.
  - reflexivity.
  - discriminate.
  - reflexivity.
Defined.

(** ** Chunks and prompts together *)

Lemma chunk_len_le (text : str) (size : Z) (chunks : list str) (c : str) :
  0 < size -> chunk_text text size = Return chunks -> In c chunks ->
  len c <= size.
Proof.
  intros Hs H Hc. rewrite chunk_text_pieces in H by exact Hs.
  injection H as <-. apply in_map_iff in Hc as (k & <- & _).
  unfold len. rewrite piece_length. lia.
Qed.

(** X24. The prompt built for any chunk of a text exceeds the question by at
    most 120190 characters, however long the text is. *)
Theorem chunk_prompt_bounded (pdf_text question : str) (chunks : list str)
    (c : str) :
  chunk_text pdf_text MAX_CONTEXT_CHARS = Return chunks ->
  In c chunks ->
  len (build_prompt c question) <= len question + 120190.
Proof.
  intros H Hc.
  pose proof (@chunk_len_le pdf_text MAX_CONTEXT_CHARS chunks c eq_refl H Hc)
    as Hle.
  rewrite len_build_prompt.
  change MAX_CONTEXT_CHARS with 120000 in Hle. lia.
Qed.

Lemma chunk_prompt_bounded_witness :
  len (build_prompt (lit "some text") (lit "What?")) <= len (lit "What?") + 120190.
Proof.
  apply (@chunk_prompt_bounded (lit "some text") (lit "What?")
           [lit "some text"] (lit "some text")).
  - reflexivity.
  - left. reflexivity.
Defined.

(** ** Runs that stop outside the loop *)

(** Without the remote library the run ends on the import, before the
    credential is looked at. *)
Example main_without_library :
  main (sample_world [Return (Some (lit "Hello"))] false reply_always None
          (fun _ => false))
    [] (demo_args (lit "doc.pdf") None) []
  = (Return 1, [Stderr (lit "Error: No module named 'google'")]).
Proof. reflexivity. Qed.

(** A print that raises after the [try] block leaves [main]. *)
Example main_print_failure :
  main (sample_world [Return (Some (lit "Hello"))] true reply_always None
          is_stdout)
    demo_env (demo_args (lit "doc.pdf") None) []
  = (Raise (mkExc LibraryError (lit "Broken pipe")),
     [Configure (lit "secret");
      GenerateContent (lit "gemini-1.5-flash")
        (build_prompt (lit "--- Page 1 ---" ++ nl ++ lit "Hello") (lit "What?"))]).
Proof. reflexivity. Qed.
